(** * Producer / consumer over a bounded buffer

    A shallow embedding of [assignment-1/producer_consumer.py]:
    the [SharedBuffer] class (a list guarded by one lock and two condition
    variables), the [Producer] and [Consumer] thread classes, and the
    [ProducerConsumerQueue] variant built on [queue.Queue].

    The development has three layers.
    - [Py]: the fragment of Python the program uses: exceptions and their
      class test, results of a call (return, raise, block for ever), and a
      state monad over the process memory (standard output, the buffer
      object, the destination list).
    - [SharedBuffer], [Tasks]: the methods as they behave for one caller at
      a time.  A method body runs entirely under the object's lock, so at
      this level it is one state transformer; [Condition.wait] with nobody
      to notify never returns.
    - [Threads], [QueueThreads]: the two threads interleaved statement by
      statement, with the lock and the waiter lists of the two conditions
      written out. *)

From Stdlib Require Import ZArith List Lia Bool String Arith Permutation.
From Stdlib Require QArith_base.
Import ListNotations.
Local Open Scope Z_scope.

Set Implicit Arguments.

(** Items are Python [int]s (the annotations say [item: int], [List[int]]). *)
Definition item := Z.

(* ================================================================== *)
(** * The Python fragment *)

Module Py.

(** The exception classes that matter to [except Exception]: the classes
    below [Exception], and the three that derive from [BaseException]
    only. *)
Inductive exn_class :=
| Exception | ValueError | TypeError | IndexError | RuntimeError
| AttributeError
| BaseException | KeyboardInterrupt | SystemExit | GeneratorExit.

Record exn := mk_exn { exn_cls : exn_class; exn_msg : string }.

(** [isinstance(e, Exception)] *)
Definition isinstance_Exception (e : exn) : bool :=
  match exn_cls e with
  | BaseException | KeyboardInterrupt | SystemExit | GeneratorExit => false
  | _ => true
  end.

(** What a call does: it returns a value, raises, or never returns
    because it waits on a condition that nobody will signal. *)
Inductive result (A : Type) :=
| Ret (a : A)
| Raise (e : exn)
| Block.
Arguments Raise {A} e.
Arguments Block {A}.

(** One line written by [print]; the f-string's fields are kept apart. *)
Inductive line :=
| BufferFull                         (* "Buffer full. Producer waiting..." *)
| Produced (x : item) (size : Z)     (* "Produced: x | Buffer size: n" *)
| BufferEmpty                        (* "Buffer empty. Consumer waiting..." *)
| Consumed (x : item) (size : Z)     (* "Consumed: x | Buffer size: n" *)
| ProducerFinished                   (* "Producer finished producing all items" *)
| ProducerError (e : exn)            (* "Producer error: e" *)
| ConsumerFinished                   (* "Consumer finished consuming all items" *)
| ConsumerError (e : exn)            (* "Consumer error: e" *)
| QProduced (x : item) (qsize : Z)   (* "Produced: x | Queue size: n" *)
| QConsumed (x : item) (qsize : Z).  (* "Consumed: x | Queue size: n" *)

(** The memory a task can reach: standard output, the buffer object it
    was given (of any class [B]), and the destination list. *)
Record world (B : Type) := mk_world {
  stdout : list line;
  buffer_obj : B;
  destination : list item
}.

(** Statements: state is kept when a statement raises or blocks, as a
    mutated Python object stays mutated. *)
Definition M (B A : Type) := world B -> result A * world B.

Definition ret {B A} (a : A) : M B A := fun w => (Ret a, w).

Definition bind {B A C} (m : M B A) (k : A -> M B C) : M B C :=
  fun w =>
    match m w with
    | (Ret a, w') => k a w'
    | (Raise e, w') => (Raise e, w')
    | (Block, w') => (Block, w')
    end.

Definition raise {B A} (e : exn) : M B A := fun w => (Raise e, w).
Definition block {B A} : M B A := fun w => (Block, w).

Definition print {B} (l : line) : M B unit :=
  fun w => (Ret tt, mk_world (stdout w ++ [l]) (buffer_obj w) (destination w)).

Definition get_buffer {B} : M B B := fun w => (Ret (buffer_obj w), w).
Definition set_buffer {B} (b : B) : M B unit :=
  fun w => (Ret tt, mk_world (stdout w) b (destination w)).

(** [destination.append(x)] *)
Definition destination_append {B} (x : item) : M B unit :=
  fun w => (Ret tt, mk_world (stdout w) (buffer_obj w) (destination w ++ [x])).

(** [try: body  except Exception as e: handler(e)] *)
Definition try_except_Exception {B A} (body : M B A) (handler : exn -> M B A)
  : M B A :=
  fun w =>
    match body w with
    | (Raise e, w') =>
        if isinstance_Exception e then handler e w' else (Raise e, w')
    | r => r
    end.

(** [for x in xs: body(x)] over a list *)
Fixpoint for_in {B X} (xs : list X) (body : X -> M B unit) : M B unit :=
  match xs with
  | [] => ret tt
  | x :: xs' => bind (body x) (fun _ => for_in xs' body)
  end.

(** [for _ in range(n): body] ; [range] of a negative number is empty. *)
Fixpoint repeat_n {B} (n : nat) (body : M B unit) : M B unit :=
  match n with
  | O => ret tt
  | S n' => bind body (fun _ => repeat_n n' body)
  end.

Definition for_range {B} (n : Z) (body : M B unit) : M B unit :=
  repeat_n (Z.to_nat n) body.

(** Delays are Python [float]s; only their sign is ever looked at. *)
Definition seconds := QArith_base.Q.

(** [d > 0] *)
Definition positive (d : seconds) : bool :=
  negb (QArith_base.Qle_bool d (QArith_base.Qmake 0 1)).

(** [time.sleep(d)]: time is not part of the model. *)
Definition sleep {B} (d : seconds) : M B unit := ret tt.

End Py.

Import Py.

Declare Scope py_scope.
Delimit Scope py_scope with py.
Notation "x <- m ;; k" := (bind m (fun x => k))
  (at level 61, m at next level, right associativity) : py_scope.
Notation "m ;; k" := (bind m (fun _ => k))
  (at level 61, right associativity) : py_scope.
Local Open Scope py_scope.

(* ================================================================== *)
(** * [class SharedBuffer], one caller at a time *)

Module SharedBuffer.

(** The data fields of the object.  The lock and the two conditions are
    part of the thread model below. *)
Record t := mk { capacity : Z; buffer : list item }.

(** [len(self.buffer)] *)
Definition len (b : t) : Z := Z.of_nat (List.length (buffer b)).

(** [__init__]: stores the capacity and an empty list; there is no
    check of [capacity], so it never raises. *)
Definition __init__ (capacity : Z) : result t :=
  Ret (mk capacity []).

(** The loop test of [put]: [len(self.buffer) >= self.capacity]. *)
Definition is_full (b : t) : bool := capacity b <=? len b.

(** The loop test of [take]: [len(self.buffer) == 0]. *)
Definition is_empty (b : t) : bool := len b =? 0.

(** [self.buffer.append(item)] *)
Definition append (x : item) (b : t) : t := mk (capacity b) (buffer b ++ [x]).

(** [self.buffer.pop(0)]: [IndexError] on an empty list. *)
Definition pop0 (b : t) : result (item * t) :=
  match buffer b with
  | [] => Raise (mk_exn IndexError "pop from empty list")
  | x :: rest => Ret (x, mk (capacity b) rest)
  end.

(** [put]: with one caller, a full buffer stays full, so the loop
    prints once and [wait] never returns. *)
Definition put (x : item) : M t unit :=
  b <- get_buffer ;;
  if is_full b then
    print BufferFull ;; block
  else
    set_buffer (append x b) ;;
    print (Produced x (len (append x b))) ;;
    ret tt.

(** [take] *)
Definition take : M t item :=
  b <- get_buffer ;;
  if is_empty b then
    print BufferEmpty ;; block
  else
    match pop0 b with
    | Ret (x, b') =>
        set_buffer b' ;;
        print (Consumed x (len b')) ;;
        ret x
    | Raise e => raise e
    | Block => block
    end.

(** [size] *)
Definition size : M t Z :=
  b <- get_buffer ;;
  ret (len b).

(** The memory right after [buffer = SharedBuffer(capacity)] and
    [destination = []]. *)
Definition fresh (capacity : Z) : world t :=
  mk_world [] (mk capacity []) [].

(** [0 <= len(storage) <= capacity] *)
Definition bounded (b : t) : Prop := 0 <= len b <= capacity b.



(** A call made on the buffer. *)
Inductive op := Put (x : item) | Take | Size.

(** The items a list of calls inserts. *)
Fixpoint inserted (ops : list op) : list item :=
  match ops with
  | [] => []
  | Put x :: ops' => x :: inserted ops'
  | _ :: ops' => inserted ops'
  end.

(** Runs the calls one after the other and collects what the [take]s
    return; a call that blocks stops the caller there. *)
Fixpoint run_ops (ops : list op) : M t (list item) :=
  match ops with
  | [] => ret []
  | Put x :: ops' => put x ;; run_ops ops'
  | Take :: ops' => y <- take ;; ys <- run_ops ops' ;; ret (y :: ys)
  | Size :: ops' => size ;; run_ops ops'
  end.

(** The memory after one call, returned or blocked. *)
Definition after (o : op) (w : world t) : world t :=
  match o with
  | Put x => snd (put x w)
  | Take => snd (take w)
  | Size => snd (size w)
  end.

Definition after_all (ops : list op) (w : world t) : world t :=
  fold_left (fun w o => after o w) ops w.

End SharedBuffer.

(* ================================================================== *)
(** * [class Producer], [class Consumer]: the body of [run] *)

Module Tasks.

(** The two methods a task calls on [self.buffer].  Python looks them up
    by name, so any object that has them can be passed. *)
Class Buffer (B : Type) := {
  buffer_put : item -> M B unit;
  buffer_take : M B item
}.


Module Producer.

Record t := mk { source : list item; production_delay : seconds }.

(** One iteration of the [for] loop. *)
Definition iteration {B} `{Buffer B} (self : t) (x : item) : M B unit :=
  buffer_put x ;;
  if positive (production_delay self)
  then sleep (production_delay self)
  else ret tt.

(** The [try] block of [run]. *)
Definition loop {B} `{Buffer B} (self : t) : M B unit :=
  for_in (source self) (iteration self) ;;
  print ProducerFinished.

Definition run {B} `{Buffer B} (self : t) : M B unit :=
  try_except_Exception (loop self) (fun e => print (ProducerError e)).

End Producer.

Module Consumer.

(** [self.destination] is the list object of the memory. *)
Record t := mk { item_count : Z; consumption_delay : seconds }.

(** One iteration of the [for] loop. *)
Definition iteration {B} `{Buffer B} (self : t) : M B unit :=
  x <- buffer_take ;;
  destination_append x ;;
  if positive (consumption_delay self)
  then sleep (consumption_delay self)
  else ret tt.

(** The [try] block of [run]. *)
Definition loop {B} `{Buffer B} (self : t) : M B unit :=
  for_range (item_count self) (iteration self) ;;
  print ConsumerFinished.

Definition run {B} `{Buffer B} (self : t) : M B unit :=
  try_except_Exception (loop self) (fun e => print (ConsumerError e)).

End Consumer.

(** Two other buffer classes, to run the tasks on. *)

(** A buffer that refuses negative items with [ValueError] and never
    blocks: [put] appends, [take] pops the head. *)
Module Picky.
Definition put (x : item) : M (list item) unit :=
  if x <? 0 then raise (mk_exn ValueError "negative item")
  else b <- get_buffer ;; set_buffer (b ++ [x]).
Definition take : M (list item) item :=
  b <- get_buffer ;;
  match b with
  | [] => raise (mk_exn IndexError "pop from empty list")
  | x :: rest => set_buffer rest ;; ret x
  end.
Definition buffer : Buffer (list item) :=
  {| buffer_put := put; buffer_take := take |}.
End Picky.

(** A buffer whose calls are interrupted from the keyboard. *)
Module Interrupted.
Definition put (x : item) : M unit unit :=
  raise (mk_exn KeyboardInterrupt "").
Definition take : M unit item :=
  raise (mk_exn KeyboardInterrupt "").
Definition buffer : Buffer unit :=
  {| buffer_put := put; buffer_take := take |}.
End Interrupted.

End Tasks.

(* ================================================================== *)
(** * Two threads and a scheduler *)

Module Sched.

Inductive tid := TProducer | TConsumer.

Definition tid_eqb (a b : tid) : bool :=
  match a, b with
  | TProducer, TProducer | TConsumer, TConsumer => true
  | _, _ => false
  end.

Section System.

(** A system of two threads: [step t s] is the next statement of
    thread [t], [None] when [t] cannot move (it has returned, or it
    waits for a lock or for a condition). *)
Variable state : Type.
Variable step : tid -> state -> option state.

(** The scheduler picks any thread that can move. *)
Inductive reachable (s0 : state) : state -> Prop :=
| reach_refl : reachable s0 s0
| reach_step : forall s t s',
    reachable s0 s -> step t s = Some s' -> reachable s0 s'.

(** No thread can move. *)
Definition stuck (s : state) : Prop :=
  step TProducer s = None /\ step TConsumer s = None.

(** Whatever the scheduler does from [s], the run is finite and the
    state in which it stops satisfies [P]. *)
Inductive always_ends (P : state -> Prop) (s : state) : Prop :=
| always_ends_intro :
    (stuck s -> P s) ->
    (forall t s', step t s = Some s' -> always_ends P s') ->
    always_ends P s.

(** Follows a schedule; a thread that cannot move is passed over. *)
Fixpoint run_schedule (sched : list tid) (s : state) : state :=
  match sched with
  | [] => s
  | t :: sched' =>
      match step t s with
      | Some s' => run_schedule sched' s'
      | None => run_schedule sched' s
      end
  end.

End System.

End Sched.

(* ================================================================== *)
(** * One [Producer] thread and one [Consumer] thread on a [SharedBuffer] *)

Module Threads.

Export Sched.

(** [t in waiters] *)
Fixpoint waits (t : tid) (waiters : list tid) : bool :=
  match waiters with
  | [] => false
  | u :: us => tid_eqb t u || waits t us
  end.

(** Where the producer thread stands: inside [Producer.run], and from
    [P_enter] to [P_exit] inside [SharedBuffer.put] (source lines in
    comments). [x] is the item being put, [rest] the items after it. *)
Inductive producer_pc :=
| P_for (src : list item)                (* 104  for item in self.source *)
| P_enter (x : item) (rest : list item)  (* 37   with self.not_full: acquire *)
| P_while (x : item) (rest : list item)  (* 38   while len(buffer) >= capacity *)
| P_full (x : item) (rest : list item)   (* 39   print("Buffer full...") *)
| P_wait (x : item) (rest : list item)   (* 40   wait(): enqueue, release *)
| P_waiting (x : item) (rest : list item)(* 40   wait(): notified, re-acquire *)
| P_append (x : item) (rest : list item) (* 43   self.buffer.append(item) *)
| P_print (x : item) (rest : list item)  (* 44   print("Produced...") *)
| P_notify (x : item) (rest : list item) (* 47   self.not_empty.notify() *)
| P_exit (x : item) (rest : list item)   (*      end of with: release *)
| P_delay (rest : list item)             (* 108  if delay > 0: sleep *)
| P_finished                             (* 111  print("Producer finished...") *)
| P_done.

(** Where the consumer thread stands: inside [Consumer.run], and from
    [C_enter] to [C_exit] inside [SharedBuffer.take]. [k] counts the
    iterations of [range(item_count)] after the current one. *)
Inductive consumer_pc :=
| C_for (k : nat)                        (* 144  for _ in range(item_count) *)
| C_enter (k : nat)                      (* 56   with self.not_empty: acquire *)
| C_while (k : nat)                      (* 58   while len(buffer) == 0 *)
| C_empty (k : nat)                      (* 59   print("Buffer empty...") *)
| C_wait (k : nat)                       (* 60   wait(): enqueue, release *)
| C_waiting (k : nat)                    (* 60   wait(): notified, re-acquire *)
| C_pop (k : nat)                        (* 63   item = self.buffer.pop(0) *)
| C_print (x : item) (k : nat)           (* 64   print("Consumed...") *)
| C_notify (x : item) (k : nat)          (* 67   self.not_full.notify() *)
| C_exit (x : item) (k : nat)            (* 68   return item: release *)
| C_append (x : item) (k : nat)          (* 146  self.destination.append(item) *)
| C_delay (k : nat)                      (* 149  if delay > 0: sleep *)
| C_finished                             (* 152  print("Consumer finished...") *)
| C_unwind (e : exn)                     (*      exception leaves the with: release *)
| C_except (e : exn)                     (* 154  print("Consumer error...") *)
| C_done.

(** The shared memory, the lock ([None] when free; the owner is kept for
    the proofs, Python's [Lock] only knows locked or not), the waiter
    lists of the two conditions, and the two threads. *)
Record state := mk_state {
  mem : world SharedBuffer.t;
  lock : option tid;
  not_full : list tid;
  not_empty : list tid;
  producer : producer_pc;
  consumer : consumer_pc
}.

Definition buf (s : state) : SharedBuffer.t := buffer_obj (mem s).

(** Field updates. *)
Definition with_producer (p : producer_pc) (s : state) : state :=
  mk_state (mem s) (lock s) (not_full s) (not_empty s) p (consumer s).
Definition with_consumer (c : consumer_pc) (s : state) : state :=
  mk_state (mem s) (lock s) (not_full s) (not_empty s) (producer s) c.
Definition with_lock (l : option tid) (s : state) : state :=
  mk_state (mem s) l (not_full s) (not_empty s) (producer s) (consumer s).
Definition with_not_full (ws : list tid) (s : state) : state :=
  mk_state (mem s) (lock s) ws (not_empty s) (producer s) (consumer s).
Definition with_not_empty (ws : list tid) (s : state) : state :=
  mk_state (mem s) (lock s) (not_full s) ws (producer s) (consumer s).
Definition with_mem (m : world SharedBuffer.t) (s : state) : state :=
  mk_state m (lock s) (not_full s) (not_empty s) (producer s) (consumer s).

(** A statement of the memory monad that cannot fail, run as one step. *)
Definition exec (m : M SharedBuffer.t unit) (s : state) : state :=
  with_mem (snd (m (mem s))) s.

(** [lock.acquire()]: possible only when the lock is free. *)
Definition acquire (t : tid) (s : state) : option state :=
  match lock s with
  | None => Some (with_lock (Some t) s)
  | Some _ => None
  end.

(** [lock.release()] *)
Definition release (s : state) : state := with_lock None s.

(** [Condition.notify()]: the first waiter, if any, leaves the list.
    [Condition.wait()] puts the caller on the list and releases the lock
    while the lock is still held, so one statement; the caller moves on
    only once a [notify] has taken it off the list (a waiter blocks on a
    lock of its own that only [notify] releases) and the lock is free. *)
Definition notify (waiters : list tid) : list tid := tl waiters.

(** One statement of the producer thread; [None] when it cannot move. *)
Definition step_producer (s : state) : option state :=
  match producer s with
  | P_for [] => Some (with_producer P_finished s)
  | P_for (x :: rest) => Some (with_producer (P_enter x rest) s)
  | P_enter x rest =>
      option_map (with_producer (P_while x rest)) (acquire TProducer s)
  | P_while x rest =>
      if SharedBuffer.is_full (buf s)
      then Some (with_producer (P_full x rest) s)
      else Some (with_producer (P_append x rest) s)
  | P_full x rest =>
      Some (with_producer (P_wait x rest) (exec (print BufferFull) s))
  | P_wait x rest =>
      Some (with_producer (P_waiting x rest)
              (release (with_not_full (not_full s ++ [TProducer]) s)))
  | P_waiting x rest =>
      if waits TProducer (not_full s) then None
      else option_map (with_producer (P_while x rest)) (acquire TProducer s)
  | P_append x rest =>
      Some (with_producer (P_print x rest)
              (exec (set_buffer (SharedBuffer.append x (buf s))) s))
  | P_print x rest =>
      Some (with_producer (P_notify x rest)
              (exec (print (Produced x (SharedBuffer.len (buf s)))) s))
  | P_notify x rest =>
      Some (with_producer (P_exit x rest)
              (with_not_empty (notify (not_empty s)) s))
  | P_exit x rest => Some (with_producer (P_delay rest) (release s))
  | P_delay rest => Some (with_producer (P_for rest) s)
  | P_finished =>
      Some (with_producer P_done (exec (print ProducerFinished) s))
  | P_done => None
  end.

(** One statement of the consumer thread.  [pop(0)] is the one statement
    that can raise; the exception leaves the [with] block, which releases
    the lock, and reaches the handler of [run], after which the thread is
    over. *)
Definition step_consumer (s : state) : option state :=
  match consumer s with
  | C_for O => Some (with_consumer C_finished s)
  | C_for (S k) => Some (with_consumer (C_enter k) s)
  | C_enter k =>
      option_map (with_consumer (C_while k)) (acquire TConsumer s)
  | C_while k =>
      if SharedBuffer.is_empty (buf s)
      then Some (with_consumer (C_empty k) s)
      else Some (with_consumer (C_pop k) s)
  | C_empty k =>
      Some (with_consumer (C_wait k) (exec (print BufferEmpty) s))
  | C_wait k =>
      Some (with_consumer (C_waiting k)
              (release (with_not_empty (not_empty s ++ [TConsumer]) s)))
  | C_waiting k =>
      if waits TConsumer (not_empty s) then None
      else option_map (with_consumer (C_while k)) (acquire TConsumer s)
  | C_pop k =>
      match SharedBuffer.pop0 (buf s) with
      | Ret (x, b') =>
          Some (with_consumer (C_print x k) (exec (set_buffer b') s))
      | Raise e => Some (with_consumer (C_unwind e) s)
      | Block => None
      end
  | C_print x k =>
      Some (with_consumer (C_notify x k)
              (exec (print (Consumed x (SharedBuffer.len (buf s)))) s))
  | C_notify x k =>
      Some (with_consumer (C_exit x k)
              (with_not_full (notify (not_full s)) s))
  | C_exit x k => Some (with_consumer (C_append x k) (release s))
  | C_append x k =>
      Some (with_consumer (C_delay k) (exec (destination_append x) s))
  | C_delay k => Some (with_consumer (C_for k) s)
  | C_finished =>
      Some (with_consumer C_done (exec (print ConsumerFinished) s))
  | C_unwind e => Some (with_consumer (C_except e) (release s))
  | C_except e =>
      if isinstance_Exception e
      then Some (with_consumer C_done (exec (print (ConsumerError e)) s))
      else Some (with_consumer C_done s)
  | C_done => None
  end.

Definition step (t : tid) (s : state) : option state :=
  match t with
  | TProducer => step_producer s
  | TConsumer => step_consumer s
  end.

(** The state when both threads have been started:
    [buffer = SharedBuffer(capacity)], [destination = []],
    [Producer(buffer, source)], [Consumer(buffer, destination, item_count)]. *)
Definition init (capacity : Z) (source : list item) (item_count : Z) : state :=
  mk_state (SharedBuffer.fresh capacity) None [] []
           (P_for source) (C_for (Z.to_nat item_count)).

(** Both [run] methods have returned. *)
Definition finished (s : state) : Prop :=
  producer s = P_done /\ consumer s = C_done.

(** The items of the "Consumed" lines, in the order printed: what the
    calls of [take] have returned so far. *)
Fixpoint consumed (out : list line) : list item :=
  match out with
  | [] => []
  | Consumed x _ :: out' => x :: consumed out'
  | _ :: out' => consumed out'
  end.

(** ** What holds in every state of a run *)

(** The items the producer has still to append. *)
Definition to_put (p : producer_pc) : list item :=
  match p with
  | P_for src => src
  | P_enter x rest | P_while x rest | P_full x rest | P_wait x rest
  | P_waiting x rest | P_append x rest => x :: rest
  | P_print _ rest | P_notify _ rest | P_exit _ rest => rest
  | P_delay rest => rest
  | P_finished | P_done => []
  end.

(** The item the consumer has popped and not yet appended. *)
Definition in_hand (c : consumer_pc) : list item :=
  match c with
  | C_print x _ | C_notify x _ | C_exit x _ | C_append x _ => [x]
  | _ => []
  end.

(** Of these, the item whose "Consumed" line is printed already. *)
Definition printed_in_hand (c : consumer_pc) : list item :=
  match c with
  | C_notify x _ | C_exit x _ | C_append x _ => [x]
  | _ => []
  end.

(** The appends to [destination] the consumer has still to do. *)
Definition todo (c : consumer_pc) : nat :=
  match c with
  | C_for k | C_delay k => k
  | C_enter k | C_while k | C_empty k | C_wait k | C_waiting k | C_pop k
  | C_print _ k | C_notify _ k | C_exit _ k | C_append _ k => S k
  | C_finished | C_unwind _ | C_except _ | C_done => O
  end.

(** The statements that run with the lock held. *)
Definition holds_p (p : producer_pc) : bool :=
  match p with
  | P_while _ _ | P_full _ _ | P_wait _ _ | P_append _ _ | P_print _ _
  | P_notify _ _ | P_exit _ _ => true
  | _ => false
  end.

Definition holds_c (c : consumer_pc) : bool :=
  match c with
  | C_while _ | C_empty _ | C_wait _ | C_pop _ | C_print _ _
  | C_notify _ _ | C_exit _ _ | C_unwind _ => true
  | _ => false
  end.

Definition holder (p : producer_pc) (c : consumer_pc) : option tid :=
  if holds_p p then Some TProducer
  else if holds_c c then Some TConsumer
  else None.

Definition p_in_wait (p : producer_pc) : bool :=
  match p with P_waiting _ _ => true | _ => false end.

Definition c_in_wait (c : consumer_pc) : bool :=
  match c with C_waiting _ => true | _ => false end.

(** The producer has appended and has not yet called [notify]. *)
Definition p_will_notify (p : producer_pc) : bool :=
  match p with P_print _ _ | P_notify _ _ => true | _ => false end.

(** The consumer has popped and has not yet called [notify]. *)
Definition c_will_notify (c : consumer_pc) : bool :=
  match c with C_print _ _ | C_notify _ _ => true | _ => false end.

Definition c_raised (c : consumer_pc) : bool :=
  match c with C_unwind _ | C_except _ => true | _ => false end.

(** The loop test of [put] has just said "full". *)
Definition p_saw_full (p : producer_pc) : bool :=
  match p with P_full _ _ | P_wait _ _ => true | _ => false end.

(** The loop test of [take] has just said "empty". *)
Definition c_saw_empty (c : consumer_pc) : bool :=
  match c with C_empty _ | C_wait _ => true | _ => false end.

Definition c_at_pop (c : consumer_pc) : bool :=
  match c with C_pop _ => true | _ => false end.

Definition p_at_append (p : producer_pc) : bool :=
  match p with P_append _ _ => true | _ => false end.

(** The invariant of a run with capacity [C], source [src] and
    [n] items to consume. *)
Record inv (C : Z) (src : list item) (n : nat) (s : state) : Prop := {
  inv_capacity : SharedBuffer.capacity (buf s) = C;
  (* nothing lost, duplicated or reordered *)
  inv_data :
    destination (mem s) ++ in_hand (consumer s)
      ++ SharedBuffer.buffer (buf s) ++ to_put (producer s) = src;
  inv_count : (List.length (destination (mem s)) + todo (consumer s) = n)%nat;
  (* the lock is held exactly inside the two with-blocks *)
  inv_lock : lock s = holder (producer s) (consumer s);
  inv_exclusive : holds_p (producer s) && holds_c (consumer s) = false;
  (* a thread is in a waiter list only while what it waits for is
     false, or the other thread is on its way to notify it *)
  inv_not_full :
    not_full s = [] \/
    (not_full s = [TProducer] /\ p_in_wait (producer s) = true /\
     (SharedBuffer.is_full (buf s) = true \/ c_will_notify (consumer s) = true));
  inv_not_empty :
    not_empty s = [] \/
    (not_empty s = [TConsumer] /\ c_in_wait (consumer s) = true /\
     (SharedBuffer.buffer (buf s) = [] \/ p_will_notify (producer s) = true));
  (* what a loop test saw stays true until the thread moves on *)
  inv_full :
    p_saw_full (producer s) = true -> SharedBuffer.is_full (buf s) = true;
  inv_empty :
    c_saw_empty (consumer s) = true -> SharedBuffer.buffer (buf s) = [];
  inv_pop : c_at_pop (consumer s) = true -> SharedBuffer.buffer (buf s) <> [];
  inv_no_exception : c_raised (consumer s) = false;
  (* every item returned by take has its line, in order *)
  inv_consumed :
    consumed (stdout (mem s))
      = destination (mem s) ++ printed_in_hand (consumer s)
}.

(** The capacity is never exceeded; the producer appends only below it. *)
Record inv_bounded (s : state) : Prop := {
  inv_le : SharedBuffer.len (buf s) <= SharedBuffer.capacity (buf s);
  inv_append :
    p_at_append (producer s) = true ->
    SharedBuffer.len (buf s) < SharedBuffer.capacity (buf s)
}.



(** ** A bound on what is left to run *)

Definition weight_p (p : producer_pc) (listed : bool) : nat :=
  match p with
  | P_done => 0
  | P_finished => 1
  | P_for r => 16 * List.length r + 2
  | P_delay r => 16 * List.length r + 3
  | P_exit _ r => 16 * List.length r + 4
  | P_notify _ r => 16 * List.length r + 9
  | P_print _ r => 16 * List.length r + 10
  | P_append _ r => 16 * List.length r + 11
  | P_waiting _ r => 16 * List.length r + (if listed then 12 else 16)
  | P_wait _ r => 16 * List.length r + 13
  | P_full _ r => 16 * List.length r + 14
  | P_while _ r => 16 * List.length r + 15
  | P_enter _ r => 16 * List.length r + 17
  end%nat.

Definition weight_c (c : consumer_pc) (listed : bool) : nat :=
  match c with
  | C_done => 0
  | C_finished | C_except _ => 1
  | C_unwind _ => 2
  | C_for k => 17 * k + 2
  | C_delay k => 17 * k + 3
  | C_append _ k => 17 * k + 4
  | C_exit _ k => 17 * k + 5
  | C_notify _ k => 17 * k + 10
  | C_print _ k => 17 * k + 11
  | C_pop k => 17 * k + 12
  | C_waiting k => 17 * k + (if listed then 13 else 17)
  | C_wait k => 17 * k + 14
  | C_empty k => 17 * k + 15
  | C_while k => 17 * k + 16
  | C_enter k => 17 * k + 18
  end%nat.

(** Every statement lowers it: a thread that re-enters its loop after a
    wait is paid for by the [notify] of the other one. *)
Definition measure (s : state) : nat :=
  (weight_p (producer s) (waits TProducer (not_full s))
   + weight_c (consumer s) (waits TConsumer (not_empty s)))%nat.

(** The schedule that lets the two threads move in turn, [n] times. *)
Fixpoint in_turn (n : nat) : list tid :=
  match n with
  | O => []
  | S n' => TProducer :: TConsumer :: in_turn n'
  end.

End Threads.

(* ================================================================== *)
(** * [queue.Queue] of the Python library *)

Module Queue.

(** Python's documentation of [queue.Queue], which the repository calls
    and does not define: [Queue(maxsize)] is a FIFO queue; "if maxsize is
    less than or equal to zero, the queue size is infinite"; [put] blocks
    until a free slot is available; [get] blocks until an item is
    available; [qsize] is the number of items; [task_done] lowers the
    count of unfinished tasks that [put] raised and raises [ValueError]
    "if called more times than there were items placed in the queue". *)
Record t := mk { maxsize : Z; queue : list item; unfinished_tasks : Z }.

Definition Queue (maxsize : Z) : t := mk maxsize [] 0.

Definition qsize (q : t) : Z := Z.of_nat (List.length (queue q)).

Definition full (q : t) : bool := (0 <? maxsize q) && (maxsize q <=? qsize q).

Definition put (x : item) (q : t) : result t :=
  if full q then Block
  else Ret (mk (maxsize q) (queue q ++ [x]) (unfinished_tasks q + 1)).

Definition get (q : t) : result (item * t) :=
  match queue q with
  | [] => Block
  | x :: rest => Ret (x, mk (maxsize q) rest (unfinished_tasks q))
  end.

Definition task_done (q : t) : result t :=
  if unfinished_tasks q - 1 <? 0
  then Raise (mk_exn ValueError "task_done() called too many times")
  else Ret (mk (maxsize q) (queue q) (unfinished_tasks q - 1)).

End Queue.

(* ================================================================== *)
(** * [class ProducerConsumerQueue]: its two functions as two threads *)

Module QueueThreads.

Export Sched.

(** Where the thread that runs [producer(source)] stands. *)
Inductive producer_pc :=
| Q_for (src : list item)                (* 179  for item in source *)
| Q_put (x : item) (rest : list item)    (* 180  self.queue.put(item) *)
| Q_print (x : item) (rest : list item)  (* 181  print("Produced...") *)
| Q_delay (rest : list item)             (* 183  if delay > 0: sleep *)
| Q_finished                             (* 186  print("Producer finished...") *)
| Q_done.

(** Where the thread that runs [consumer(destination, item_count)]
    stands.  Neither function has a [try]: an exception ends the thread. *)
Inductive consumer_pc :=
| QC_for (k : nat)                       (* 198  for _ in range(item_count) *)
| QC_get (k : nat)                       (* 199  item = self.queue.get() *)
| QC_append (x : item) (k : nat)         (* 200  destination.append(item) *)
| QC_print (x : item) (k : nat)          (* 201  print("Consumed...") *)
| QC_delay (k : nat)                     (* 203  if delay > 0: sleep *)
| QC_task_done (k : nat)                 (* 206  self.queue.task_done() *)
| QC_finished                            (* 208  print("Consumer finished...") *)
| QC_raised (e : exn)                    (*      uncaught exception *)
| QC_done.

Record state := mk_state {
  mem : world Queue.t;
  producer : producer_pc;
  consumer : consumer_pc
}.

Definition que (s : state) : Queue.t := buffer_obj (mem s).

Definition exec (m : M Queue.t unit) (s : state) : state :=
  mk_state (snd (m (mem s))) (producer s) (consumer s).

Definition with_producer (p : producer_pc) (s : state) : state :=
  mk_state (mem s) p (consumer s).
Definition with_consumer (c : consumer_pc) (s : state) : state :=
  mk_state (mem s) (producer s) c.

Definition step_producer (s : state) : option state :=
  match producer s with
  | Q_for [] => Some (with_producer Q_finished s)
  | Q_for (x :: rest) => Some (with_producer (Q_put x rest) s)
  | Q_put x rest =>
      match Queue.put x (que s) with
      | Ret q' => Some (with_producer (Q_print x rest) (exec (set_buffer q') s))
      | _ => None
      end
  | Q_print x rest =>
      Some (with_producer (Q_delay rest)
              (exec (print (QProduced x (Queue.qsize (que s)))) s))
  | Q_delay rest => Some (with_producer (Q_for rest) s)
  | Q_finished =>
      Some (with_producer Q_done (exec (print ProducerFinished) s))
  | Q_done => None
  end.

Definition step_consumer (s : state) : option state :=
  match consumer s with
  | QC_for O => Some (with_consumer QC_finished s)
  | QC_for (S k) => Some (with_consumer (QC_get k) s)
  | QC_get k =>
      match Queue.get (que s) with
      | Ret (x, q') =>
          Some (with_consumer (QC_append x k) (exec (set_buffer q') s))
      | _ => None
      end
  | QC_append x k =>
      Some (with_consumer (QC_print x k) (exec (destination_append x) s))
  | QC_print x k =>
      Some (with_consumer (QC_delay k)
              (exec (print (QConsumed x (Queue.qsize (que s)))) s))
  | QC_delay k => Some (with_consumer (QC_task_done k) s)
  | QC_task_done k =>
      match Queue.task_done (que s) with
      | Ret q' => Some (with_consumer (QC_for k) (exec (set_buffer q') s))
      | Raise e => Some (with_consumer (QC_raised e) s)
      | Block => None
      end
  | QC_finished =>
      Some (with_consumer QC_done (exec (print ConsumerFinished) s))
  | QC_raised e => None
  | QC_done => None
  end.

Definition step (t : tid) (s : state) : option state :=
  match t with
  | TProducer => step_producer s
  | TConsumer => step_consumer s
  end.

(** [pc = ProducerConsumerQueue(capacity)], [destination = []], and the
    two threads started on [pc.producer] and [pc.consumer]. *)
Definition init (capacity : Z) (source : list item) (item_count : Z) : state :=
  mk_state (mk_world [] (Queue.Queue capacity) [])
           (Q_for source) (QC_for (Z.to_nat item_count)).

Definition finished (s : state) : Prop :=
  producer s = Q_done /\ consumer s = QC_done.

(** ** What holds in every state of a run *)

Definition to_put (p : producer_pc) : list item :=
  match p with
  | Q_for src => src
  | Q_put x rest => x :: rest
  | Q_print _ rest | Q_delay rest => rest
  | Q_finished | Q_done => []
  end.

(** The item got from the queue and not yet appended. *)
Definition in_hand (c : consumer_pc) : list item :=
  match c with
  | QC_append x _ => [x]
  | _ => []
  end.

Definition todo (c : consumer_pc) : nat :=
  match c with
  | QC_get k | QC_append _ k => S k
  | QC_for k | QC_print _ k | QC_delay k | QC_task_done k => k
  | QC_finished | QC_raised _ | QC_done => O
  end.

(** Items got for which [task_done] is still to be called. *)
Definition in_flight (c : consumer_pc) : Z :=
  match c with
  | QC_append _ _ | QC_print _ _ | QC_delay _ | QC_task_done _ => 1
  | _ => 0
  end.

Definition c_raised (c : consumer_pc) : bool :=
  match c with QC_raised _ => true | _ => false end.

Record inv (src : list item) (n : nat) (s : state) : Prop := {
  inv_data :
    destination (mem s) ++ in_hand (consumer s)
      ++ Queue.queue (que s) ++ to_put (producer s) = src;
  inv_count : (List.length (destination (mem s)) + todo (consumer s) = n)%nat;
  inv_unfinished :
    Queue.unfinished_tasks (que s)
      = Queue.qsize (que s) + in_flight (consumer s);
  inv_no_exception : c_raised (consumer s) = false
}.

(** ** A bound on what is left to run *)

Definition weight_p (p : producer_pc) : nat :=
  match p with
  | Q_done => 0
  | Q_finished => 1
  | Q_for r => 4 * List.length r + 2
  | Q_delay r => 4 * List.length r + 3
  | Q_print _ r => 4 * List.length r + 4
  | Q_put _ r => 4 * List.length r + 5
  end%nat.

Definition weight_c (c : consumer_pc) : nat :=
  match c with
  | QC_done | QC_raised _ => 0
  | QC_finished => 1
  | QC_for k => 6 * k + 2
  | QC_task_done k => 6 * k + 3
  | QC_delay k => 6 * k + 4
  | QC_print _ k => 6 * k + 5
  | QC_append _ k => 6 * k + 6
  | QC_get k => 6 * k + 7
  end%nat.

Definition measure (s : state) : nat :=
  (weight_p (producer s) + weight_c (consumer s))%nat.

End QueueThreads.

(* ================================================================== *)
(** * More about the tasks and the threads *)

Module TasksMore.






End TasksMore.

Module ThreadsMore.

Import Threads.

(** The producer has not yet appended its first item. *)
Definition p_before_append (p : producer_pc) : bool :=
  match p with
  | P_for _ | P_enter _ _ | P_while _ _ | P_full _ _ | P_wait _ _
  | P_waiting _ _ => true
  | _ => false
  end.

(** With a capacity that leaves no room, nothing is ever appended. *)
Definition no_room (src : list item) (s : state) : Prop :=
  SharedBuffer.capacity (buf s) <= 0
  /\ to_put (producer s) = src
  /\ p_before_append (producer s) = true.

(** The size a "Produced" or "Consumed" line shows is one the buffer can
    have right after an append, or right after a pop. *)
Definition size_shown_ok (C : Z) (l : line) : Prop :=
  match l with
  | Produced _ size => 1 <= size <= C
  | Consumed _ size => 0 <= size < C
  | _ => True
  end.

Definition p_at_print (p : producer_pc) : bool :=
  match p with P_print _ _ => true | _ => false end.

Definition c_at_print (c : consumer_pc) : bool :=
  match c with C_print _ _ => true | _ => false end.

Record inv_sizes (C : Z) (s : state) : Prop := {
  sizes_shown : Forall (size_shown_ok C) (stdout (mem s));
  sizes_p_print :
    p_at_print (producer s) = true -> 1 <= SharedBuffer.len (buf s);
  sizes_c_print :
    c_at_print (consumer s) = true -> SharedBuffer.len (buf s) < C
}.

End ThreadsMore.

(* ================================================================== *)
(** * [assignment-2/sales_analyzer.py]: the counting functions *)

Module SalesAnalyzer.

(** [@dataclass(frozen=True) class SalesRecord].  The [float] fields and
    the [datetime] field are carried by the functions modelled here and
    never computed with, so their types are left open. *)
Record SalesRecord (float datetime : Type) := mk_record {
  order_id : string;
  date : datetime;
  customer_id : string;
  customer_name : string;
  product_category : string;
  product_name : string;
  quantity : Z;
  unit_price : float;
  total_price : float;
  region : string;
  payment_method : string
}.

(** A [dict] from [str] to [int]: the items in insertion order, each key
    once. *)
Definition dict := list (string * Z).

(** [d.get(k)] *)
Fixpoint get (k : string) (d : dict) : option Z :=
  match d with
  | [] => None
  | (k', v) :: d' => if String.eqb k' k then Some v else get k d'
  end.

(** [d[k] += 1] on a [defaultdict(int)]: a missing key starts at 0 and
    is inserted last. *)
Fixpoint incr (k : string) (d : dict) : dict :=
  match d with
  | [] => [(k, 1)]
  | (k', v) :: d' =>
      if String.eqb k' k then (k', v + 1) :: d' else (k', v) :: incr k d'
  end.

(** [sum(d.values())] *)
Definition total (d : dict) : Z := fold_right (fun kv acc => snd kv + acc) 0 d.

Section Analyzer.

Context {float datetime : Type}.

(** [self.sales_data] *)
Definition sales_data := list (SalesRecord float datetime).

Definition get_order_count_by_payment_method (self : sales_data) : dict :=
  fold_left (fun payment_counts record =>
               incr (payment_method record) payment_counts)
            self [].

Definition get_customer_purchase_frequency (self : sales_data) : dict :=
  fold_left (fun frequency record => incr (customer_name record) frequency)
            self [].

(** [len(set(map(lambda record: record.customer_id, self.sales_data)))]:
    the set is the list of identifiers without repetitions. *)
Definition get_distinct_customers_count (self : sales_data) : Z :=
  Z.of_nat (List.length (nodup string_dec (map (@customer_id _ _) self))).

(** The number of records whose [key] is [k]. *)
Definition occurrences (key : SalesRecord float datetime -> string)
           (k : string) (self : sales_data) : Z :=
  Z.of_nat (List.length (filter (fun r => String.eqb (key r) k) self)).

End Analyzer.

End SalesAnalyzer.

(* ================================================================== *)
(** * Properties of [SharedBuffer], one caller at a time *)

Module SharedBufferProofs.

Import SharedBuffer.

Lemma len_nonneg (b : t) : 0 <= len b.
Proof. unfold len. lia. Qed.

Lemma len_append (x : item) (b : t) : len (append x b) = len b + 1.
Proof. unfold len, append. simpl. rewrite length_app. simpl. lia. Qed.


(** [put] unfolded: either it blocks on a full buffer, having printed
    one line, or it returns with the item at the tail. *)
Lemma put_unfold (x : item) (w : world t) :
  put x w =
    if is_full (buffer_obj w)
    then (Block, mk_world (stdout w ++ [BufferFull]) (buffer_obj w) (destination w))
    else (Ret tt,
          mk_world (stdout w ++ [Produced x (len (buffer_obj w) + 1)])
                   (append x (buffer_obj w)) (destination w)).
Proof.
  unfold put, bind, get_buffer. destruct (is_full (buffer_obj w)); simpl.
  - reflexivity.
  - rewrite len_append. reflexivity.
Qed.

(** [take] unfolded. *)
Lemma take_unfold (w : world t) :
  take w =
    match buffer (buffer_obj w) with
    | [] => (Block, mk_world (stdout w ++ [BufferEmpty]) (buffer_obj w) (destination w))
    | y :: rest =>
        (Ret y,
         mk_world (stdout w ++ [Consumed y (Z.of_nat (List.length rest))])
                  (mk (capacity (buffer_obj w)) rest) (destination w))
    end.
Proof.
  unfold take, bind, get_buffer, is_empty, pop0, len.
  destruct (buffer (buffer_obj w)) as [|y rest]; simpl; reflexivity.
Qed.

Lemma size_unfold (w : world t) : size w = (Ret (len (buffer_obj w)), w).
Proof. reflexivity. Qed.

Lemma put_returns (x : item) (w w' : world t) (u : unit) :
  put x w = (Ret u, w') ->
  is_full (buffer_obj w) = false /\ buffer_obj w' = append x (buffer_obj w)
  /\ destination w' = destination w.
Proof.
  rewrite put_unfold. destruct (is_full (buffer_obj w)); intros H.
  - discriminate.
  - inversion H; subst; simpl. auto.
Qed.

Lemma take_returns (w w' : world t) (y : item) :
  take w = (Ret y, w') ->
  buffer (buffer_obj w) = y :: buffer (buffer_obj w')
  /\ capacity (buffer_obj w') = capacity (buffer_obj w)
  /\ destination w' = destination w.
Proof.
  rewrite take_unfold. destruct (buffer (buffer_obj w)) as [|z rest] eqn:E;
    intros H.
  - discriminate.
  - inversion H; subst; simpl. auto.
Qed.

(** The calls of [run_ops] that all return: what was there and what was
    inserted is what was taken followed by what is left. *)
Lemma run_ops_fifo (ops : list op) :
  forall (w w' : world t) (taken : list item),
    run_ops ops w = (Ret taken, w') ->
    buffer (buffer_obj w) ++ inserted ops = taken ++ buffer (buffer_obj w').
Proof.
  induction ops as [|o ops IH]; intros w w' taken H.
  - inversion H; subst. simpl. apply app_nil_r.
  - destruct o as [x| |]; simpl in H; unfold bind in H.
    + destruct (put x w) as [[u|e|] w1] eqn:Ep; try discriminate.
      apply put_returns in Ep. destruct Ep as (_ & Eb & _).
      apply IH in H. rewrite Eb in H. simpl in *.
      rewrite <- H, <- app_assoc. reflexivity.
    + destruct (take w) as [[y|e|] w1] eqn:Et; try discriminate.
      destruct (run_ops ops w1) as [[ys|e|] w2] eqn:Er; try discriminate.
      inversion H; subst. apply take_returns in Et. destruct Et as (Eb & _).
      apply IH in Er. rewrite Eb. simpl. f_equal. exact Er.
    + apply IH in H. exact H.
Qed.

Lemma after_put (x : item) (w : world t) :
  buffer_obj (after (Put x) w) =
    if is_full (buffer_obj w) then buffer_obj w else append x (buffer_obj w).
Proof.
  simpl. rewrite put_unfold. destruct (is_full (buffer_obj w)); reflexivity.
Qed.

Lemma after_take (w : world t) :
  buffer_obj (after Take w) =
    mk (capacity (buffer_obj w)) (tl (buffer (buffer_obj w))).
Proof.
  simpl. rewrite take_unfold.
  destruct (buffer_obj w) as [c [|y rest]]; reflexivity.
Qed.

Lemma after_bounded (o : op) (w : world t) :
  bounded (buffer_obj w) -> bounded (buffer_obj (after o w)).
Proof.
  unfold bounded. intros H. destruct o as [x| |].
  - rewrite after_put. unfold is_full.
    destruct (Z.leb_spec (capacity (buffer_obj w)) (len (buffer_obj w))).
    + exact H.
    + rewrite len_append. unfold append. simpl. lia.
  - rewrite after_take. unfold len in *. simpl.
    destruct (buffer (buffer_obj w)); simpl in *; lia.
  - exact H.
Qed.

Lemma after_capacity (o : op) (w : world t) :
  capacity (buffer_obj (after o w)) = capacity (buffer_obj w).
Proof.
  destruct o as [x| |].
  - rewrite after_put. destruct (is_full (buffer_obj w)); reflexivity.
  - rewrite after_take. reflexivity.
  - reflexivity.
Qed.

Lemma after_all_bounded (ops : list op) :
  forall w, bounded (buffer_obj w) -> bounded (buffer_obj (after_all ops w)).
Proof.
  induction ops as [|o ops IH]; intros w H; simpl.
  - exact H.
  - apply IH, after_bounded, H.
Qed.

Lemma after_all_capacity (ops : list op) :
  forall w, capacity (buffer_obj (after_all ops w)) = capacity (buffer_obj w).
Proof.
  induction ops as [|o ops IH]; intros w; simpl.
  - reflexivity.
  - rewrite IH. apply after_capacity.
Qed.

End SharedBufferProofs.

(* ================================================================== *)
(** * Runs of two threads: invariants and termination *)

Module SchedProofs.
Import Sched.
Section System.
Variable state : Type.
Variable step : tid -> state -> option state.
Variable Inv : state -> Prop.
Hypothesis Inv_step : forall s t s', Inv s -> step t s = Some s' -> Inv s'.

Lemma reachable_inv (s0 s : state) :
  Inv s0 -> reachable step s0 s -> Inv s.
Proof.
  intros H0 R. induction R as [|s t s' R IH E].
  - exact H0.
  - eapply Inv_step; eassumption.
Qed.

Variable measure : state -> nat.
Hypothesis measure_step :
  forall s t s', step t s = Some s' -> (measure s' < measure s)%nat.

Lemma always_ends_by_measure (P : state -> Prop) :
  (forall s, Inv s -> stuck step s -> P s) ->
  forall s, Inv s -> always_ends step P s.
Proof.
  intros HP s. remember (measure s) as m eqn:Em. revert s Em.
  induction m as [m IH] using lt_wf_ind. intros s Em Hs.
  constructor.
  - intros Hst. apply HP; assumption.
  - intros t s' E. apply (IH (measure s')).
    + subst m. eapply measure_step; eassumption.
    + reflexivity.
    + eapply Inv_step; eassumption.
Qed.

End System.

Section Ends.
Variable state : Type.
Variable step : tid -> state -> option state.
Variable P : state -> Prop.



Lemma run_schedule_reachable (sched : list tid) :
  forall s, reachable step s (run_schedule step sched s).
Proof.
  assert (G : forall s0 s, reachable step s0 s ->
                           reachable step s0 (run_schedule step sched s)).
  { induction sched as [|t sched IH]; intros s0 s R; simpl.
    - exact R.
    - destruct (step t s) as [s'|] eqn:E.
      + apply IH. eapply reach_step; eassumption.
      + apply IH. exact R. }
  intros s. apply G. constructor.
Qed.

End Ends.
End SchedProofs.

(* ================================================================== *)
(** * The two threads on a [SharedBuffer] *)

Module ThreadsProofs.

Import Threads SchedProofs.

Lemma waits_app_self (t : tid) (l : list tid) : waits t (l ++ [t]) = true.
Proof.
  induction l as [|u l IH]; simpl.
  - destruct t; reflexivity.
  - rewrite IH. apply orb_true_r.
Qed.

Lemma weight_p_listed (p : producer_pc) (a b : bool) :
  (weight_p p a <= weight_p p b + 4)%nat.
Proof. destruct p, a, b; simpl; lia. Qed.

Lemma weight_c_listed (c : consumer_pc) (a b : bool) :
  (weight_c c a <= weight_c c b + 4)%nat.
Proof. destruct c, a, b; simpl; lia. Qed.

Lemma measure_step (s : state) (t : tid) (s' : state) :
  step t s = Some s' -> (measure s' < measure s)%nat.
Proof.
  destruct s as [m l nf ne p c]. destruct t; simpl.
  - unfold step_producer, measure, acquire; simpl.
    destruct p as [[|x r]|x r|x r|x r|x r|x r|x r|x r|x r|x r|r| |]; simpl;
      try (intros H; inversion H; subst; clear H; simpl; lia).
    + destruct l; simpl; intros H; inversion H; subst; simpl. lia.
    + destruct (SharedBuffer.is_full _); intros H; inversion H; subst; simpl; lia.
    + intros H; inversion H; subst; clear H; simpl.
      rewrite waits_app_self. lia.
    + destruct (waits TProducer nf) eqn:W; try discriminate.
      destruct l; simpl; intros H; inversion H; subst; simpl.
      lia.
    + intros H; inversion H; subst; clear H; simpl.
      pose proof (weight_c_listed c (waits TConsumer (notify ne)) (waits TConsumer ne)).
      lia.
  - unfold step_consumer, measure, acquire; simpl.
    destruct c as [[|k]|k|k|k|k|k|k|x k|x k|x k|x k|k| |e|e|]; simpl;
      try (intros H; inversion H; subst; clear H; simpl; lia).
    + destruct l; simpl; intros H; inversion H; subst; simpl. lia.
    + destruct (SharedBuffer.is_empty _); intros H; inversion H; subst; simpl; lia.
    + intros H; inversion H; subst; clear H; simpl.
      rewrite waits_app_self. lia.
    + destruct (waits TConsumer ne) eqn:W; try discriminate.
      destruct l; simpl; intros H; inversion H; subst; simpl.
      lia.
    + unfold SharedBuffer.pop0, buf. simpl.
      destruct (SharedBuffer.buffer (buffer_obj m)); intros H; inversion H; subst; simpl; lia.
    + intros H; inversion H; subst; clear H; simpl.
      pose proof (weight_p_listed p (waits TProducer (notify nf)) (waits TProducer nf)).
      lia.
    + destruct (isinstance_Exception e); intros H; inversion H; subst; simpl; lia.
Qed.

Lemma consumed_app (a b : list line) :
  consumed (a ++ b) = consumed a ++ consumed b.
Proof.
  induction a as [|l a IH]; simpl.
  - reflexivity.
  - destruct l; simpl; rewrite IH; reflexivity.
Qed.

Lemma inv_init (C : Z) (src : list item) (n : Z) :
  inv C src (Z.to_nat n) (init C src n).
Proof.
  constructor; simpl; auto; try discriminate.
Qed.

Lemma is_empty_true (b : SharedBuffer.t) :
  SharedBuffer.is_empty b = true -> SharedBuffer.buffer b = [].
Proof.
  unfold SharedBuffer.is_empty, SharedBuffer.len.
  destruct (SharedBuffer.buffer b); simpl; intros H.
  - reflexivity.
  - discriminate.
Qed.

Lemma is_empty_false (b : SharedBuffer.t) :
  SharedBuffer.is_empty b = false -> SharedBuffer.buffer b <> [].
Proof.
  unfold SharedBuffer.is_empty, SharedBuffer.len.
  intros H E. rewrite E in H. discriminate.
Qed.

(** Splits a step equation into its cases and names the new state. *)
Ltac step_cases E :=
  simpl in E;
  repeat match type of E with
    | context [match ?l with Some _ => _ | None => _ end] =>
        destruct l eqn:?; simpl in E
    | context [if ?b then _ else _] => destruct b eqn:?; simpl in E
    | context [match ?l with nil => _ | cons _ _ => _ end] =>
        destruct l eqn:?; simpl in E
    end;
  try discriminate E;
  injection E as <-.

Lemma inv_step_producer (C : Z) (src : list item) (n : nat) (s s' : state) :
  inv C src n s -> step_producer s = Some s' -> inv C src n s'.
Proof.
  intros [Icap Idata Icount Ilock Iexcl Inf Ine Ifull Iempty Ipop Iexn Icons] E.
  destruct s as [m l nf ne p c]. unfold buf in *. simpl in *.
  unfold step_producer, acquire, buf in E; simpl in E.
  destruct p as [[|x r]|x r|x r|x r|x r|x r|x r|x r|x r|x r|r| |];
    simpl in *; step_cases E.
  all: unfold holder in *; simpl in *.
  all: destruct (holds_c c) eqn:Hc; try discriminate.
  all: constructor; unfold buf, holder; simpl; rewrite ?Hc; auto.
  all: try (rewrite ?consumed_app; simpl; rewrite ?app_nil_r; auto; fail).
  all: try (intros; discriminate).
  all: try (rewrite <- Idata, <- app_assoc; reflexivity).
  all: try (destruct Inf as [->|(-> & Hw & Hj)]; [|try discriminate]).
  all: try (destruct Ine as [->|(-> & Hw' & Hj')]; [|try discriminate]).
  all: simpl; auto.
  all: try (destruct c; simpl in *; discriminate).
  all: try (intros _; destruct (SharedBuffer.buffer (buffer_obj m)); discriminate).
  all: try (right; repeat split; auto; fail).
Qed.

Lemma inv_step_consumer (C : Z) (src : list item) (n : nat) (s s' : state) :
  inv C src n s -> step_consumer s = Some s' -> inv C src n s'.
Proof.
  intros [Icap Idata Icount Ilock Iexcl Inf Ine Ifull Iempty Ipop Iexn Icons] E.
  destruct s as [m l nf ne p c]. unfold buf in *. simpl in *.
  unfold step_consumer, acquire, SharedBuffer.pop0, buf in E; simpl in E.
  destruct c as [[|k]|k|k|k|k|k|k|x k|x k|x k|x k|k| |e|e|];
    simpl in *; try discriminate.
  all: try (destruct (SharedBuffer.buffer (buffer_obj m)) as [|y b'] eqn:Eb;
            [exfalso; apply Ipop; reflexivity|]).
  all: step_cases E.
  all: unfold holder in *; simpl in *.
  all: destruct (holds_p p) eqn:Hp; try discriminate.
  all: constructor; unfold buf, holder; simpl; rewrite ?Hp; auto.
  all: try (intros; discriminate).
  all: try (intros _; auto using is_empty_true, is_empty_false; fail).
  all: try (rewrite ?consumed_app, ?app_nil_r in *; simpl;
            rewrite ?app_nil_r; congruence).
  all: try (rewrite <- Idata, <- ?app_assoc; reflexivity).
  all: try (rewrite <- Icount, length_app; simpl; lia).
  all: try (destruct Inf as [->|(-> & Hw & Hj)]; [|try discriminate]).
  all: try (destruct Ine as [->|(-> & Hw' & Hj')]; [|try discriminate]).
  all: simpl; auto.
  all: try (destruct p; simpl in *; discriminate).
  all: try (right; repeat split; auto using is_empty_true; fail).
Qed.

Lemma inv_step (C : Z) (src : list item) (n : nat) (s : state) (t : tid)
      (s' : state) :
  inv C src n s -> step t s = Some s' -> inv C src n s'.
Proof.
  destruct t; simpl; eauto using inv_step_producer, inv_step_consumer.
Qed.

Lemma inv_bounded_init (C : Z) (src : list item) (n : Z) :
  0 <= C -> inv_bounded (init C src n).
Proof.
  intros H. constructor; simpl.
  - unfold SharedBuffer.len. simpl. exact H.
  - discriminate.
Qed.

Lemma is_full_false (b : SharedBuffer.t) :
  SharedBuffer.is_full b = false ->
  SharedBuffer.len b < SharedBuffer.capacity b.
Proof. unfold SharedBuffer.is_full. intros H. apply Z.leb_gt in H. exact H. Qed.


Lemma inv_bounded_step (s : state) (t : tid) (s' : state) :
  inv_bounded s -> step t s = Some s' -> inv_bounded s'.
Proof.
  intros [Ble Bapp] E.
  destruct s as [m l nf ne p c]. unfold buf in *. simpl in *.
  destruct t; simpl in E.
  - unfold step_producer, acquire, buf in E; simpl in E.
    destruct p as [[|x r]|x r|x r|x r|x r|x r|x r|x r|x r|x r|r| |];
      simpl in *; step_cases E.
    all: constructor; unfold buf; simpl; auto; try (intros; discriminate).
    + intros _. apply is_full_false. assumption.
    + rewrite SharedBufferProofs.len_append. specialize (Bapp eq_refl). lia.
  - unfold step_consumer, acquire, SharedBuffer.pop0, buf in E; simpl in E.
    destruct c as [[|k]|k|k|k|k|k|k|x k|x k|x k|x k|k| |e|e|];
      simpl in *; step_cases E.
    all: constructor; unfold buf; simpl; auto; try (intros; discriminate).
    all: unfold SharedBuffer.len in *; simpl.
    all: match goal with H : SharedBuffer.buffer _ = _ |- _ => rewrite H in * end.
    all: simpl in *.
    + lia.
    + intros Hp. specialize (Bapp Hp). lia.
Qed.



(** Five items through a buffer of two slots, the threads moving in
    turn. *)
Example in_turn_run :
  let s := run_schedule step (in_turn 60) (init 2 [1; 2; 3; 4; 5] 5) in
  destination (mem s) = [1; 2; 3; 4; 5]
  /\ producer s = P_done /\ consumer s = C_done
  /\ consumed (stdout (mem s)) = [1; 2; 3; 4; 5].
Proof. vm_compute. auto. Qed.

(** With capacity 0, which the constructor accepts, both threads end up
    waiting for each other. *)
Example zero_capacity_deadlock :
  let s := run_schedule step (in_turn 10) (init 0 [1] 1) in
  stuck step s
  /\ producer s = P_waiting 1 [] /\ consumer s = C_waiting 0
  /\ not_full s = [TProducer] /\ not_empty s = [TConsumer].
Proof. vm_compute. auto 6. Qed.

Lemma reachable_inv_init (C : Z) (src : list item) (n : Z) (s : state) :
  reachable step (init C src n) s -> inv C src (Z.to_nat n) s.
Proof.
  apply reachable_inv.
  - intros u t u'. apply inv_step.
  - apply inv_init.
Qed.

Lemma reachable_bounded (C : Z) (src : list item) (n : Z) (s : state) :
  0 <= C -> reachable step (init C src n) s -> inv_bounded s.
Proof.
  intros HC. apply reachable_inv.
  - intros u t u'. apply inv_bounded_step.
  - apply inv_bounded_init. exact HC.
Qed.





End ThreadsProofs.

(* ================================================================== *)
(** * The two threads on a [queue.Queue] *)

Module QueueThreadsProofs.

Import QueueThreads SchedProofs.







End QueueThreadsProofs.

(* ================================================================== *)
(** * The body of [run]: exceptions, and a run with no waiting *)

Module TasksProofs.

Import Tasks.

Section AnyBuffer.

Context {B : Type} {buffer_class : Buffer B}.

Lemma try_except_caught (A : Type) (body : M B A) (handler : exn -> M B A)
      (w w' : world B) (e : exn) :
  body w = (Raise e, w') -> isinstance_Exception e = true ->
  try_except_Exception body handler w = handler e w'.
Proof.
  intros Hb He. unfold try_except_Exception. rewrite Hb, He. reflexivity.
Qed.

(** A [try ... except Exception] whose handler cannot raise lets only
    exceptions outside [Exception] through. *)
Lemma try_except_propagates (body : M B unit) (l : exn -> line)
      (w : world B) (e : exn) :
  fst (try_except_Exception body (fun e => print (l e)) w) = Raise e ->
  isinstance_Exception e = false.
Proof.
  unfold try_except_Exception.
  destruct (body w) as [[u|e'|] w'] eqn:Hb; simpl; try discriminate.
  destruct (isinstance_Exception e') eqn:He; simpl.
  - discriminate.
  - intros H. inversion H; subst. exact He.
Qed.

(** A loop over [pre ++ x :: post] that raises at [x] never reaches
    [post]. *)
Lemma for_in_raises (X : Type) (body : X -> M B unit) (pre : list X)
      (x : X) (post : list X) (e : exn) :
  forall (w w1 w2 : world B),
    for_in pre body w = (Ret tt, w1) ->
    body x w1 = (Raise e, w2) ->
    for_in (pre ++ x :: post) body w = (Raise e, w2).
Proof.
  induction pre as [|y pre IH]; intros w w1 w2 Hpre Hx; simpl in *.
  - inversion Hpre; subst. unfold bind. rewrite Hx. reflexivity.
  - unfold bind in *. destruct (body y w) as [[u|e'|] w'] eqn:Hy;
      try discriminate.
    eapply IH; eassumption.
Qed.

Lemma repeat_n_raises (body : M B unit) (k j : nat) (e : exn) :
  forall (w w1 w2 : world B),
    repeat_n k body w = (Ret tt, w1) ->
    body w1 = (Raise e, w2) ->
    repeat_n (k + S j) body w = (Raise e, w2).
Proof.
  induction k as [|k IH]; intros w w1 w2 Hpre Hx; simpl in *.
  - inversion Hpre; subst. unfold bind. rewrite Hx. reflexivity.
  - unfold bind in *. destruct (body w) as [[u|e'|] w'] eqn:Hy;
      try discriminate.
    eapply IH; eassumption.
Qed.

Lemma producer_iteration_raises (self : Producer.t) (x : item)
      (w w' : world B) (e : exn) :
  buffer_put x w = (Raise e, w') ->
  Producer.iteration self x w = (Raise e, w').
Proof. intros H. unfold Producer.iteration, bind. rewrite H. reflexivity. Qed.

Lemma consumer_iteration_raises (self : Consumer.t)
      (w w' : world B) (e : exn) :
  buffer_take w = (Raise e, w') ->
  Consumer.iteration self w = (Raise e, w').
Proof. intros H. unfold Consumer.iteration, bind. rewrite H. reflexivity. Qed.

Lemma producer_run_caught (self : Producer.t) (pre : list item) (x : item)
      (post : list item) (w w1 w2 : world B) (e : exn) :
  Producer.source self = pre ++ x :: post ->
  for_in pre (Producer.iteration self) w = (Ret tt, w1) ->
  buffer_put x w1 = (Raise e, w2) ->
  isinstance_Exception e = true ->
  Producer.run self w = (Ret tt, snd (print (ProducerError e) w2)).
Proof.
  intros Hs Hpre Hx He. unfold Producer.run.
  rewrite try_except_caught with (e := e) (w' := w2).
  - reflexivity.
  - unfold Producer.loop, bind. rewrite Hs.
    rewrite for_in_raises with (e := e) (w1 := w1) (w2 := w2); auto.
    apply producer_iteration_raises. exact Hx.
  - exact He.
Qed.

Lemma consumer_run_caught (self : Consumer.t) (k : nat)
      (w w1 w2 : world B) (e : exn) :
  (k < Z.to_nat (Consumer.item_count self))%nat ->
  repeat_n k (Consumer.iteration self) w = (Ret tt, w1) ->
  buffer_take w1 = (Raise e, w2) ->
  isinstance_Exception e = true ->
  Consumer.run self w = (Ret tt, snd (print (ConsumerError e) w2)).
Proof.
  intros Hk Hpre Hx He. unfold Consumer.run.
  rewrite try_except_caught with (e := e) (w' := w2).
  - reflexivity.
  - unfold Consumer.loop, bind, for_range.
    replace (Z.to_nat (Consumer.item_count self))
      with (k + S (Z.to_nat (Consumer.item_count self) - S k))%nat by lia.
    rewrite repeat_n_raises with (e := e) (w1 := w1) (w2 := w2); auto.
    apply consumer_iteration_raises. exact Hx.
  - exact He.
Qed.

End AnyBuffer.

(** ** [Consumer.run] on a [SharedBuffer] that holds enough items *)

Import SharedBuffer.




End TasksProofs.

(* ================================================================== *)
(** * The properties of the specification *)

Module Properties.

Import Sched SchedProofs.

(** ** The buffer *)

(** Claim C2.  The buffer is strict FIFO: a [put] that returns has
    appended its item at the tail, a [take] that returns has removed the
    head and returns it, and over any sequence of calls that all return,
    what was stored before followed by what was inserted is what the
    [take]s returned, in order, followed by what is still stored. *)
Theorem buffer_is_fifo :
  (forall (x : item) (w w' : world SharedBuffer.t),
      SharedBuffer.put x w = (Ret tt, w') ->
      SharedBuffer.buffer (buffer_obj w')
        = SharedBuffer.buffer (buffer_obj w) ++ [x])
  /\ (forall (w w' : world SharedBuffer.t) (y : item),
      SharedBuffer.take w = (Ret y, w') ->
      SharedBuffer.buffer (buffer_obj w)
        = y :: SharedBuffer.buffer (buffer_obj w'))
  /\ (forall (ops : list SharedBuffer.op) (w w' : world SharedBuffer.t)
             (taken : list item),
      SharedBuffer.run_ops ops w = (Ret taken, w') ->
      SharedBuffer.buffer (buffer_obj w) ++ SharedBuffer.inserted ops
        = taken ++ SharedBuffer.buffer (buffer_obj w')).
Proof.
  split; [|split].
  - intros x w w' H. apply SharedBufferProofs.put_returns in H.
    destruct H as (_ & -> & _). reflexivity.
  - intros w w' y H. apply SharedBufferProofs.take_returns in H. apply H.
  - intros ops. apply SharedBufferProofs.run_ops_fifo.
Qed.

Lemma buffer_is_fifo_witness :
  SharedBuffer.run_ops
    [SharedBuffer.Put 1; SharedBuffer.Put 2; SharedBuffer.Take;
     SharedBuffer.Put 3; SharedBuffer.Size; SharedBuffer.Take]
    (SharedBuffer.fresh 2)
  = (Ret [1; 2],
     mk_world [Produced 1 1; Produced 2 2; Consumed 1 1; Produced 3 2;
               Consumed 2 1]
              (SharedBuffer.mk 2 [3]) [])
  /\ [] ++ [1; 2; 3] = [1; 2] ++ [3].
Proof.
  split.
  - reflexivity.
  - exact (proj2 (proj2 buffer_is_fifo)
             [SharedBuffer.Put 1; SharedBuffer.Put 2; SharedBuffer.Take;
              SharedBuffer.Put 3; SharedBuffer.Size; SharedBuffer.Take]
             (SharedBuffer.fresh 2) _ [1; 2] eq_refl).
Defined.

(** Claim C3, as the code has it.  For every buffer constructed with a
    capacity [C >= 0], [0 <= len(storage) <= C] holds after construction,
    is preserved by every [put], [take] and [size], holds after any
    sequence of such calls, and holds in every state of a run of the
    producer and consumer threads. *)
Theorem occupancy_bounded (C : Z) :
  0 <= C ->
  (forall b, SharedBuffer.__init__ C = Ret b -> SharedBuffer.bounded b)
  /\ (forall (o : SharedBuffer.op) (w : world SharedBuffer.t),
      SharedBuffer.bounded (buffer_obj w) ->
      SharedBuffer.bounded (buffer_obj (SharedBuffer.after o w)))
  /\ (forall ops : list SharedBuffer.op,
      SharedBuffer.bounded
        (buffer_obj (SharedBuffer.after_all ops (SharedBuffer.fresh C)))
      /\ SharedBuffer.capacity
           (buffer_obj (SharedBuffer.after_all ops (SharedBuffer.fresh C))) = C)
  /\ (forall (src : list item) (n : Z) (s : Threads.state),
      reachable Threads.step (Threads.init C src n) s ->
      SharedBuffer.bounded (Threads.buf s)
      /\ SharedBuffer.capacity (Threads.buf s) = C).
Proof.
  intros HC. split; [|split; [|split]].
  - intros b H. inversion H; subst.
    unfold SharedBuffer.bounded, SharedBuffer.len. simpl. lia.
  - intros o w. apply SharedBufferProofs.after_bounded.
  - intros ops. split.
    + apply SharedBufferProofs.after_all_bounded.
      unfold SharedBuffer.bounded, SharedBuffer.len. simpl. lia.
    + apply SharedBufferProofs.after_all_capacity.
  - intros src n s R. split.
    + pose proof (@ThreadsProofs.reachable_bounded C src n s HC R) as [Hle _].
      split; [apply SharedBufferProofs.len_nonneg | exact Hle].
    + apply (@ThreadsProofs.reachable_inv_init C src n s R).
Qed.

Lemma occupancy_bounded_witness :
  0 <= 2
  /\ SharedBuffer.bounded
       (buffer_obj
          (SharedBuffer.after_all
             [SharedBuffer.Put 1; SharedBuffer.Put 2; SharedBuffer.Put 3;
              SharedBuffer.Take; SharedBuffer.Size]
             (SharedBuffer.fresh 2))).
Proof.
  assert (H : 0 <= 2) by (intros E; discriminate E).
  split.
  - exact H.
  - exact (proj1 (proj1 (proj2 (proj2 (occupancy_bounded H))) _)).
Defined.

(** Claim C3 as stated fails: [SharedBuffer(-1)] is constructed, and its
    length 0 is above its capacity. *)
Lemma negative_capacity_unbounded :
  exists b, SharedBuffer.__init__ (-1) = Ret b /\ ~ SharedBuffer.bounded b.
Proof.
  exists (SharedBuffer.mk (-1) []). split.
  - reflexivity.
  - unfold SharedBuffer.bounded, SharedBuffer.len. simpl. lia.
Qed.

(** Claim C4, as the code has it.  Constructing a [SharedBuffer] never
    fails: for every integer capacity, positive or not, [__init__]
    returns a buffer with that capacity and an empty storage. *)
Theorem init_always_succeeds (capacity : Z) :
  SharedBuffer.__init__ capacity = Ret (SharedBuffer.mk capacity []).
Proof. reflexivity. Qed.

(** Claim C4 as stated fails: [SharedBuffer(0)] raises nothing and
    yields a buffer. *)
Lemma zero_capacity_constructed :
  SharedBuffer.__init__ 0 = Ret (SharedBuffer.mk 0 [])
  /\ forall e, SharedBuffer.__init__ 0 <> Raise e.
Proof. split; [reflexivity | intros e H; discriminate H]. Qed.





(** ** The two tasks *)







(** Claim C7, as the code has it.  An exception raised inside the loop
    of [Producer.run] or [Consumer.run] that is an instance of
    [Exception] is caught in [run], logged, and ends the task there: the
    items after the failing one are never put, nothing more is taken, and
    [run] returns.  [run] lets through only exceptions that are not
    instances of [Exception] ([KeyboardInterrupt], [SystemExit],
    [GeneratorExit]), which [except Exception] does not catch. *)
Theorem task_catches_Exception (B : Type) (buffer_class : Tasks.Buffer B) :
  (forall (self : Tasks.Producer.t) (w : world B) (e : exn),
      fst (Tasks.Producer.run self w) = Raise e ->
      isinstance_Exception e = false)
  /\ (forall (self : Tasks.Producer.t) (pre : list item) (x : item)
             (post : list item) (w w1 w2 : world B) (e : exn),
      Tasks.Producer.source self = pre ++ x :: post ->
      for_in pre (Tasks.Producer.iteration self) w = (Ret tt, w1) ->
      Tasks.buffer_put x w1 = (Raise e, w2) ->
      isinstance_Exception e = true ->
      Tasks.Producer.run self w
      = (Ret tt,
         mk_world (stdout w2 ++ [ProducerError e])
                  (buffer_obj w2) (destination w2)))
  /\ (forall (self : Tasks.Consumer.t) (w : world B) (e : exn),
      fst (Tasks.Consumer.run self w) = Raise e ->
      isinstance_Exception e = false)
  /\ (forall (self : Tasks.Consumer.t) (k : nat) (w w1 w2 : world B)
             (e : exn),
      (k < Z.to_nat (Tasks.Consumer.item_count self))%nat ->
      repeat_n k (Tasks.Consumer.iteration self) w = (Ret tt, w1) ->
      Tasks.buffer_take w1 = (Raise e, w2) ->
      isinstance_Exception e = true ->
      Tasks.Consumer.run self w
      = (Ret tt,
         mk_world (stdout w2 ++ [ConsumerError e])
                  (buffer_obj w2) (destination w2))).
Proof.
  split; [|split; [|split]].
  - intros self w e. apply TasksProofs.try_except_propagates.
  - intros self pre x post w w1 w2 e Hs Hp Hx He.
    erewrite TasksProofs.producer_run_caught by eassumption. reflexivity.
  - intros self w e. apply TasksProofs.try_except_propagates.
  - intros self k w w1 w2 e Hk Hp Hx He.
    erewrite TasksProofs.consumer_run_caught by eassumption. reflexivity.
Qed.

Lemma task_catches_Exception_witness :
  @Tasks.Producer.run _ Tasks.Picky.buffer
    (Tasks.Producer.mk [1; -2; 3] (QArith_base.Qmake 0 1))
    (mk_world [] [] [])
  = (Ret tt,
     mk_world [ProducerError (mk_exn ValueError "negative item")] [1] []).
Proof.
  exact (proj1 (proj2 (@task_catches_Exception _ Tasks.Picky.buffer))
           (Tasks.Producer.mk [1; -2; 3] (QArith_base.Qmake 0 1))
           [1] (-2) [3]
           (mk_world [] [] []) (mk_world [] [1] []) (mk_world [] [1] [])
           (mk_exn ValueError "negative item")
           eq_refl eq_refl eq_refl eq_refl).
Defined.

(** Claim C7 as stated fails: a [KeyboardInterrupt] raised by [put]
    leaves [Producer.run]. *)
Lemma keyboard_interrupt_propagates :
  fst (@Tasks.Producer.run _ Tasks.Interrupted.buffer
         (Tasks.Producer.mk [1] (QArith_base.Qmake 0 1))
         (mk_world [] tt []))
  = Raise (mk_exn KeyboardInterrupt "").
Proof. reflexivity. Qed.

End Properties.

(* ================================================================== *)
(** * The tasks alone on a [SharedBuffer] *)

Module TasksMoreProofs.

Import Tasks TasksMore SharedBuffer.











End TasksMoreProofs.

(* ================================================================== *)
(** * Runs of the two threads with any capacity and any item count *)

Module ThreadsMoreProofs.

Import Threads ThreadsMore SchedProofs ThreadsProofs.
Import TasksMore.

Lemma no_room_step (src : list item) (s : state) (t : tid) (s' : state) :
  src <> [] -> no_room src s -> step t s = Some s' -> no_room src s'.
Proof.
  unfold no_room. intros Hsrc (Hc & Hp & Hb) E.
  destruct s as [m l nf ne p c]. unfold buf in *. simpl in *.
  destruct t; simpl in E.
  - unfold step_producer, acquire, buf in E; simpl in E.
    destruct p as [[|x r]|x r|x r|x r|x r|x r|x r|x r|x r|x r|r| |];
      simpl in *; try discriminate; try congruence; step_cases E; simpl; auto.
    exfalso. apply is_full_false in Heqb.
    pose proof (SharedBufferProofs.len_nonneg (buffer_obj m)). lia.
  - unfold step_consumer, acquire, SharedBuffer.pop0, buf in E; simpl in E.
    destruct c as [[|k]|k|k|k|k|k|k|x k|x k|x k|x k|k| |e|e|];
      simpl in *; step_cases E; simpl; auto.
Qed.

Lemma app_eq_self_r (A : Type) (a b : list A) : a ++ b = b -> a = [].
Proof.
  intros H. apply (f_equal (@List.length A)) in H. rewrite length_app in H.
  destruct a; [reflexivity|simpl in H; lia].
Qed.

(** What [no_room] and the invariant leave: nothing delivered. *)
Lemma no_room_empty (C : Z) (src : list item) (n : nat) (s : state) :
  inv C src n s -> no_room src s ->
  destination (mem s) = [] /\ SharedBuffer.buffer (buf s) = []
  /\ in_hand (consumer s) = [].
Proof.
  intros I (_ & Hp & _). pose proof (inv_data I) as Hd. rewrite Hp in Hd.
  rewrite !app_assoc in Hd. apply app_eq_self_r in Hd.
  apply app_eq_nil in Hd. destruct Hd as (Hd & Hb).
  apply app_eq_nil in Hd. tauto.
Qed.

(** A state where no thread can move: the lock is free, and each thread
    has returned or sits in the waiter list of its condition, with what it
    waits for still false. *)
Lemma stuck_shape (C : Z) (src : list item) (n : nat) (s : state) :
  inv C src n s -> stuck step s ->
  (producer s = P_done
   \/ exists x r, producer s = P_waiting x r
                  /\ SharedBuffer.is_full (buf s) = true)
  /\ (consumer s = C_done
      \/ exists k, consumer s = C_waiting k
                   /\ SharedBuffer.buffer (buf s) = []).
Proof.
  intros [Icap Idata Icount Ilock Iexcl Inf Ine Ifull Iempty Ipop Iexn Icons]
         [Ep Ec].
  destruct s as [m l nf ne p c]. unfold buf in *. simpl in *.
  unfold step_producer, acquire, buf in Ep; simpl in Ep.
  unfold step_consumer, acquire, SharedBuffer.pop0, buf in Ec; simpl in Ec.
  destruct p as [[|x r]|x r|x r|x r|x r|x r|x r|x r|x r|x r|r| |];
    simpl in *; try discriminate.
  all: try (destruct (SharedBuffer.is_full (buffer_obj m)); discriminate).
  all: destruct c as [[|k]|k|k|k|k|k|k|y k|y k|y k|y k|k| |e|e|];
    simpl in *; try discriminate.
  all: try (destruct (SharedBuffer.is_empty (buffer_obj m)); discriminate).
  all: try (destruct (SharedBuffer.buffer (buffer_obj m)) as [|? ?]; discriminate).
  all: unfold holder in *; simpl in *; try (subst l; discriminate).
  all: subst l; simpl in *.
  all: try (assert (Hnf : nf <> []) by (intros ->; discriminate);
            destruct Inf as [Hnil|(_ & _ & [Hfull|Hx])];
            [contradiction| |discriminate]).
  all: try (assert (Hne : ne <> []) by (intros ->; discriminate);
            destruct Ine as [Hnil'|(_ & _ & [Hemp|Hx'])];
            [contradiction| |discriminate]).
  all: split; [first [left; reflexivity | right; eauto]
              |first [left; reflexivity | right; eauto]].
Qed.

Lemma inv_both_step (C : Z) (src : list item) (n : nat) (s : state) (t : tid)
      (s' : state) :
  inv C src n s /\ inv_bounded s -> step t s = Some s' ->
  inv C src n s' /\ inv_bounded s'.
Proof.
  intros [I B] E. split.
  - eapply inv_step; eassumption.
  - eapply inv_bounded_step; eassumption.
Qed.


Lemma inv_no_room_step (C : Z) (src : list item) (n : nat) (s : state)
      (t : tid) (s' : state) :
  src <> [] ->
  inv C src n s /\ no_room src s -> step t s = Some s' ->
  inv C src n s' /\ no_room src s'.
Proof.
  intros Hs [I B] E. split.
  - eapply inv_step; eassumption.
  - eapply no_room_step; eassumption.
Qed.





(** The buffer changes only under the lock of the thread that moves. *)
Lemma step_buffer_locked (C : Z) (src : list item) (n : nat) (s : state)
      (t : tid) (s' : state) :
  inv C src n s -> step t s = Some s' -> buf s' <> buf s -> lock s = Some t.
Proof.
  intros [Icap Idata Icount Ilock Iexcl Inf Ine Ifull Iempty Ipop Iexn Icons] E.
  destruct s as [m l nf ne p c]. unfold buf in *. simpl in *.
  destruct t; simpl in E.
  - unfold step_producer, acquire, buf in E; simpl in E.
    destruct p as [[|x r]|x r|x r|x r|x r|x r|x r|x r|x r|x r|r| |];
      simpl in *; step_cases E; simpl; intros Hne;
      try (exfalso; apply Hne; reflexivity).
    exact Ilock.
  - unfold step_consumer, acquire, SharedBuffer.pop0, buf in E; simpl in E.
    destruct c as [[|k]|k|k|k|k|k|k|x k|x k|x k|x k|k| |e|e|];
      simpl in *; step_cases E; simpl; intros Hne;
      try (exfalso; apply Hne; reflexivity).
    unfold holder in Ilock. simpl in *.
    destruct (holds_p p); [discriminate|exact Ilock].
Qed.



(** Where a run on a buffer with no room stops. *)
Lemma stuck_no_room (C : Z) (x : item) (rest : list item) (n : nat) (s : state) :
  (1 <= n)%nat ->
  inv C (x :: rest) n s -> no_room (x :: rest) s -> stuck step s ->
  producer s = P_waiting x rest
  /\ consumer s = C_waiting (n - 1)
  /\ destination (mem s) = []
  /\ SharedBuffer.buffer (buf s) = [].
Proof.
  intros Hn I R St.
  destruct (stuck_shape I St) as [Hp Hc].
  destruct (no_room_empty I R) as (Hd & Hb & _).
  destruct R as (_ & Ht & _). pose proof (inv_count I) as Hk.
  rewrite Hd in Hk. simpl in Hk.
  destruct Hp as [Hp|(y & r & Hp & _)]; rewrite Hp in Ht; simpl in Ht;
    [discriminate|].
  inversion Ht; subst y r.
  destruct Hc as [Hc|(k & Hc & _)]; rewrite Hc in Hk; simpl in Hk; [lia|].
  repeat split; auto. rewrite Hc. f_equal. lia.
Qed.

Lemma Forall_snoc (A : Type) (P : A -> Prop) (l : list A) (a : A) :
  Forall P l -> P a -> Forall P (l ++ [a]).
Proof. intros Hl Ha. apply Forall_app. split; [exact Hl|constructor; auto]. Qed.

Lemma inv_sizes_step (C : Z) (src : list item) (n : nat) (s : state) (t : tid)
      (s' : state) :
  inv C src n s -> inv_bounded s -> inv_sizes C s -> step t s = Some s' ->
  inv_sizes C s'.
Proof.
  intros [Icap Idata Icount Ilock Iexcl Inf Ine Ifull Iempty Ipop Iexn Icons]
         [Ble Bapp] [Sshown Sp Sc] E.
  destruct s as [m l nf ne p c]. unfold buf in *. simpl in *.
  pose proof (SharedBufferProofs.len_nonneg (buffer_obj m)) as H0.
  destruct t; simpl in E.
  - unfold step_producer, acquire, buf in E; simpl in E.
    destruct p as [[|x r]|x r|x r|x r|x r|x r|x r|x r|x r|x r|r| |];
      simpl in *; step_cases E.
    all: constructor; unfold buf; simpl; auto; try (intros; discriminate).
    all: try (apply Forall_snoc; [assumption|simpl; auto; try lia]).
    all: try (rewrite SharedBufferProofs.len_append).
    all: try (intros; lia).
    intros Hc. destruct c; simpl in *; discriminate.
  - unfold step_consumer, acquire, SharedBuffer.pop0, buf in E; simpl in E.
    destruct c as [[|k]|k|k|k|k|k|k|x k|x k|x k|x k|k| |e|e|];
      simpl in *; try discriminate.
    all: try (destruct (SharedBuffer.buffer (buffer_obj m)) as [|y b'] eqn:Eb;
              [exfalso; apply Ipop; reflexivity|]).
    all: step_cases E.
    all: constructor; unfold buf; simpl; auto; try (intros; discriminate).
    all: try (apply Forall_snoc; [assumption|simpl; auto; try lia]).
    all: unfold SharedBuffer.len in *; simpl in *; try rewrite Eb in *.
    all: try change (List.length (y :: b')) with (S (List.length b')) in *.
    all: try (intros; lia).
    intros Hp. destruct p; simpl in *; discriminate.
Qed.

Lemma reachable_sizes (C : Z) (src : list item) (n : Z) (s : state) :
  0 <= C -> reachable step (init C src n) s -> inv_sizes C s.
Proof.
  intros HC R.
  assert (H : (inv C src (Z.to_nat n) s /\ inv_bounded s) /\ inv_sizes C s).
  { revert R. apply reachable_inv
      with (Inv := fun s => (inv C src (Z.to_nat n) s /\ inv_bounded s)
                            /\ inv_sizes C s).
    - intros u t u' [[I B] S] E. split.
      + eapply inv_both_step; [split|]; eassumption.
      + eapply inv_sizes_step; eassumption.
    - split; [split; [apply inv_init|apply inv_bounded_init; exact HC]|].
      constructor; simpl; auto; discriminate. }
  apply H.
Qed.

End ThreadsMoreProofs.

(* ================================================================== *)
(** * The queue variant with any capacity *)

Module QueueMoreProofs.

Import QueueThreads SchedProofs QueueThreadsProofs.




End QueueMoreProofs.

(* ================================================================== *)
(** * The counting functions of the sales analyzer *)

Module SalesAnalyzerProofs.

Import SalesAnalyzer.

Lemma get_incr_same (k : string) (d : dict) :
  get k (incr k d) = Some (match get k d with Some v => v + 1 | None => 1 end).
Proof.
  induction d as [|[k' v] d IH]; simpl.
  - rewrite String.eqb_refl. reflexivity.
  - destruct (String.eqb k' k) eqn:E; simpl; rewrite E; auto.
Qed.

Lemma get_incr_other (k j : string) (d : dict) :
  k <> j -> get j (incr k d) = get j d.
Proof.
  intros Hkj. induction d as [|[k' v] d IH]; simpl.
  - destruct (String.eqb_spec k j); [contradiction|reflexivity].
  - destruct (String.eqb_spec k' k) as [->|Hk]; simpl.
    + destruct (String.eqb_spec k j); [contradiction|reflexivity].
    + rewrite IH. reflexivity.
Qed.

Lemma total_incr (k : string) (d : dict) : total (incr k d) = total d + 1.
Proof.
  unfold total. induction d as [|[k' v] d IH]; simpl.
  - reflexivity.
  - destruct (String.eqb k' k); simpl; lia.
Qed.

Lemma keys_incr (k : string) (d : dict) :
  map fst (incr k d)
  = match get k d with Some _ => map fst d | None => map fst d ++ [k] end.
Proof.
  induction d as [|[k' v] d IH]; simpl.
  - reflexivity.
  - destruct (String.eqb k' k) eqn:E; simpl.
    + reflexivity.
    + rewrite IH. destruct (get k d); reflexivity.
Qed.

Lemma get_None_keys (k : string) (d : dict) :
  get k d = None <-> ~ In k (map fst d).
Proof.
  induction d as [|[k' v] d IH]; simpl.
  - tauto.
  - destruct (String.eqb_spec k' k).
    + split; [discriminate|]. intros H. exfalso. apply H. auto.
    + rewrite IH. tauto.
Qed.

Section Counting.

Context {float datetime : Type}.
Variable key : SalesRecord float datetime -> string.

(** The loop [for record in data: counts[key(record)] += 1], from any
    dictionary [d] with distinct keys and positive counts. *)
Lemma count_by_spec (self : list (SalesRecord float datetime)) :
  forall d : dict,
    (forall k, get k (fold_left (fun counts record => incr (key record) counts) self d)
               = match get k d with
                 | Some v => Some (v + occurrences key k self)
                 | None => if occurrences key k self =? 0 then None
                           else Some (occurrences key k self)
                 end)
    /\ total (fold_left (fun counts record => incr (key record) counts) self d) = total d + Z.of_nat (List.length self)
    /\ (NoDup (map fst d) -> NoDup (map fst (fold_left (fun counts record => incr (key record) counts) self d))).
Proof.
  unfold occurrences.
  induction self as [|r self IH]; intros d.
  - simpl. split; [|split; [lia|auto]].
    intros k. destruct (get k d); [f_equal; lia|reflexivity].
  - cbn [fold_left]. destruct (IH (incr (key r) d)) as (Hg & Ht & Hn).
    split; [|split].
    + intros k. rewrite Hg. cbn [filter].
      destruct (String.eqb_spec (key r) k) as [->|Hne].
      * rewrite get_incr_same. cbn [List.length].
        destruct (get k d).
        -- f_equal. lia.
        -- destruct (Z.eqb_spec
                       (Z.of_nat (S (List.length
                          (filter (fun r0 => String.eqb (key r0) k) self)))) 0);
             [lia|f_equal; lia].
      * rewrite get_incr_other by assumption. reflexivity.
    + rewrite Ht, total_incr. cbn [List.length]. lia.
    + intros Hd. apply Hn. rewrite keys_incr.
      destruct (get (key r) d) eqn:E; [assumption|].
      apply get_None_keys in E.
      apply NoDup_app; [assumption|constructor; [simpl; tauto|constructor]|].
      intros x Hx [<-|[]]. contradiction.
Qed.

End Counting.

Lemma nodup_length_le (l : list string) :
  (List.length (nodup string_dec l) <= List.length l)%nat.
Proof.
  induction l as [|a l IH]; simpl.
  - lia.
  - destruct (in_dec string_dec a l); simpl; lia.
Qed.

Lemma nodup_length_full (l : list string) :
  List.length (nodup string_dec l) = List.length l <-> NoDup l.
Proof.
  split.
  - induction l as [|a l IH]; simpl; intros H.
    + constructor.
    + destruct (in_dec string_dec a l) as [Hin|Hin].
      * pose proof (nodup_length_le l). lia.
      * simpl in H. constructor; [exact Hin|apply IH; lia].
  - intros H. rewrite nodup_fixed_point by assumption. reflexivity.
Qed.

Lemma nodup_same_elements (l l' : list string) :
  (forall x, In x l <-> In x l') ->
  List.length (nodup string_dec l) = List.length (nodup string_dec l').
Proof.
  intros H. apply Permutation_length. apply NoDup_Permutation.
  - apply NoDup_nodup.
  - apply NoDup_nodup.
  - intros x. rewrite !nodup_In. apply H.
Qed.

Lemma nodup_snoc_length (l : list string) (a : string) :
  List.length (nodup string_dec (l ++ [a]))
  = (List.length (nodup string_dec l)
     + if in_dec string_dec a l then 0 else 1)%nat.
Proof.
  destruct (in_dec string_dec a l) as [Hin|Hin].
  - rewrite Nat.add_0_r. apply nodup_same_elements.
    intros x. rewrite in_app_iff. simpl. split; [|tauto].
    intros [H|[<-|[]]]; assumption.
  - rewrite (@nodup_same_elements (l ++ [a]) (a :: l)).
    + simpl. destruct (in_dec string_dec a l); [contradiction|]. simpl. lia.
    + intros x. rewrite in_app_iff. simpl. tauto.
Qed.

End SalesAnalyzerProofs.

(* ================================================================== *)
(** * Further properties of the code *)

Module MoreProperties.

Import Sched SchedProofs TasksMore SalesAnalyzer.

(** ** The tasks alone on a [SharedBuffer] *)






(** After any sequence of calls that all return, [size()] is the size
    before plus the number of [put]s minus the number of [take]s. *)
Theorem size_counts_calls (ops : list SharedBuffer.op)
        (w w' : world SharedBuffer.t) (taken : list item) :
  SharedBuffer.run_ops ops w = (Ret taken, w') ->
  SharedBuffer.size w'
  = (Ret (SharedBuffer.len (buffer_obj w)
          + Z.of_nat (List.length (SharedBuffer.inserted ops))
          - Z.of_nat (List.length taken)), w').
Proof.
  intros H. apply SharedBufferProofs.run_ops_fifo in H.
  apply (f_equal (@List.length item)) in H. rewrite !length_app in H.
  rewrite SharedBufferProofs.size_unfold. f_equal. f_equal.
  unfold SharedBuffer.len. lia.
Qed.

Lemma size_counts_calls_witness :
  SharedBuffer.size
    (mk_world [Produced 1 1; Produced 2 2; Consumed 1 1]
              (SharedBuffer.mk 5 [2]) [])
  = (Ret (0 + 2 - 1),
     mk_world [Produced 1 1; Produced 2 2; Consumed 1 1]
              (SharedBuffer.mk 5 [2]) []).
Proof.
  exact (@size_counts_calls
           [SharedBuffer.Put 1; SharedBuffer.Put 2; SharedBuffer.Take]
           (SharedBuffer.fresh 5) _ [1] eq_refl).
Defined.

(** ** The two threads, any capacity, any item count *)



(** The lock protects the buffer: at every moment of every run at most
    one thread is inside a [with] block, the lock is held exactly by that
    thread, and a statement that changes the buffer is made by the thread
    that holds the lock. *)
Theorem buffer_changes_under_lock (C : Z) (src : list item) (n : Z)
        (s : Threads.state) :
  reachable Threads.step (Threads.init C src n) s ->
  Threads.holds_p (Threads.producer s) && Threads.holds_c (Threads.consumer s)
  = false
  /\ Threads.lock s
     = Threads.holder (Threads.producer s) (Threads.consumer s)
  /\ (forall (t : tid) (s' : Threads.state),
        Threads.step t s = Some s' ->
        Threads.buf s' <> Threads.buf s ->
        Threads.lock s = Some t).
Proof.
  intros R. pose proof (@ThreadsProofs.reachable_inv_init C src n s R) as I.
  split; [apply (Threads.inv_exclusive I)|].
  split; [apply (Threads.inv_lock I)|].
  intros t s' E. eapply ThreadsMoreProofs.step_buffer_locked; eassumption.
Qed.

Lemma buffer_changes_under_lock_witness :
  let s := run_schedule Threads.step (Threads.in_turn 3)
             (Threads.init 1 [1; 2; 3] 3) in
  Threads.holds_p (Threads.producer s) && Threads.holds_c (Threads.consumer s)
  = false
  /\ Threads.lock s
     = Threads.holder (Threads.producer s) (Threads.consumer s)
  /\ (forall (t : tid) (s' : Threads.state),
        Threads.step t s = Some s' ->
        Threads.buf s' <> Threads.buf s ->
        Threads.lock s = Some t).
Proof.
  apply (@buffer_changes_under_lock 1 [1; 2; 3] 3).
  apply run_schedule_reachable.
Defined.



(** Every size shown in a "Produced" line is between 1 and the capacity,
    and every size shown in a "Consumed" line is between 0 and the
    capacity minus one, in every run on a buffer of capacity [C >= 0]. *)
Theorem shown_sizes_within_capacity (C : Z) (src : list item) (n : Z)
        (s : Threads.state) :
  0 <= C ->
  reachable Threads.step (Threads.init C src n) s ->
  Forall (ThreadsMore.size_shown_ok C) (stdout (Threads.mem s)).
Proof.
  intros HC R.
  apply (ThreadsMore.sizes_shown (@ThreadsMoreProofs.reachable_sizes C src n s HC R)).
Qed.

Lemma shown_sizes_within_capacity_witness :
  Forall (ThreadsMore.size_shown_ok 2)
    (stdout (Threads.mem
       (run_schedule Threads.step (Threads.in_turn 60)
          (Threads.init 2 [1; 2; 3; 4; 5] 5)))).
Proof.
  apply (@shown_sizes_within_capacity 2 [1; 2; 3; 4; 5] 5).
  - intros E. discriminate E.
  - apply run_schedule_reachable.
Defined.





(** A buffer of capacity [C <= 0], which the constructor accepts, passes
    nothing on: with a non-empty source and at least one item to consume
    every run is finite and ends with both threads waiting for each other,
    the producer still holding its first item, the destination empty. *)
Theorem no_room_deadlock (C : Z) (x : item) (rest : list item) (n : Z) :
  C <= 0 -> 1 <= n ->
  always_ends Threads.step
    (fun s =>
       Threads.producer s = Threads.P_waiting x rest
       /\ Threads.consumer s = Threads.C_waiting (Z.to_nat n - 1)
       /\ destination (Threads.mem s) = []
       /\ SharedBuffer.buffer (Threads.buf s) = [])
    (Threads.init C (x :: rest) n).
Proof.
  intros HC Hn.
  apply always_ends_by_measure
    with (Inv := fun s => Threads.inv C (x :: rest) (Z.to_nat n) s
                          /\ ThreadsMore.no_room (x :: rest) s)
         (measure := Threads.measure).
  - intros s t s'. apply ThreadsMoreProofs.inv_no_room_step. discriminate.
  - intros s t s'. apply ThreadsProofs.measure_step.
  - intros s [I R] St.
    apply (@ThreadsMoreProofs.stuck_no_room C x rest (Z.to_nat n) s); auto. lia.
  - split; [apply ThreadsProofs.inv_init|].
    unfold ThreadsMore.no_room. simpl. auto.
Qed.

Lemma no_room_deadlock_witness :
  always_ends Threads.step
    (fun s =>
       Threads.producer s = Threads.P_waiting 1 [2]
       /\ Threads.consumer s = Threads.C_waiting (Z.to_nat 2 - 1)
       /\ destination (Threads.mem s) = []
       /\ SharedBuffer.buffer (Threads.buf s) = [])
    (Threads.init 0 [1; 2] 2).
Proof.
  apply (@no_room_deadlock 0 1 [2] 2).
  - intros E. discriminate E.
  - intros E. discriminate E.
Defined.

(** ** The queue variant *)


(** ** The sales analyzer *)

(** [get_order_count_by_payment_method]: a payment method is a key of the
    result exactly when some record has it, its value is the number of
    records that have it, the values add up to the number of records, and
    no key occurs twice. *)
Theorem payment_counts_correct (float datetime : Type)
        (self : @sales_data float datetime) :
  (forall m : string,
      get m (get_order_count_by_payment_method self)
      = if occurrences (@payment_method _ _) m self =? 0 then None
        else Some (occurrences (@payment_method _ _) m self))
  /\ total (get_order_count_by_payment_method self)
     = Z.of_nat (List.length self)
  /\ NoDup (map fst (get_order_count_by_payment_method self)).
Proof.
  destruct (SalesAnalyzerProofs.count_by_spec (@payment_method _ _) self [])
    as (Hg & Ht & Hn).
  split; [|split].
  - intros m. apply (Hg m).
  - exact Ht.
  - apply Hn. constructor.
Qed.

(** [get_customer_purchase_frequency]: a customer name is a key of the
    result exactly when some record has it, its value is the number of
    records that have it, the values add up to the number of records, and
    no key occurs twice. *)
Theorem purchase_frequency_correct (float datetime : Type)
        (self : @sales_data float datetime) :
  (forall c : string,
      get c (get_customer_purchase_frequency self)
      = if occurrences (@customer_name _ _) c self =? 0 then None
        else Some (occurrences (@customer_name _ _) c self))
  /\ total (get_customer_purchase_frequency self)
     = Z.of_nat (List.length self)
  /\ NoDup (map fst (get_customer_purchase_frequency self)).
Proof.
  destruct (SalesAnalyzerProofs.count_by_spec (@customer_name _ _) self [])
    as (Hg & Ht & Hn).
  split; [|split].
  - intros m. apply (Hg m).
  - exact Ht.
  - apply Hn. constructor.
Qed.

(** [get_distinct_customers_count] lies between 0 and the number of
    records; it is 0 only without records; it is the number of records
    exactly when no customer identifier repeats; one more record raises it
    by one if its identifier is new and leaves it as it is otherwise; and
    it depends only on which identifiers occur. *)
Theorem distinct_customers_count_spec (float datetime : Type)
        (self : @sales_data float datetime) :
  0 <= get_distinct_customers_count self <= Z.of_nat (List.length self)
  /\ (get_distinct_customers_count self = 0 <-> self = [])
  /\ (get_distinct_customers_count self = Z.of_nat (List.length self)
      <-> NoDup (map (@customer_id _ _) self))
  /\ (forall r : SalesRecord float datetime,
        get_distinct_customers_count (self ++ [r])
        = get_distinct_customers_count self
          + if in_dec string_dec (customer_id r) (map (@customer_id _ _) self)
            then 0 else 1)
  /\ (forall other : @sales_data float datetime,
        (forall c, In c (map (@customer_id _ _) self)
                   <-> In c (map (@customer_id _ _) other)) ->
        get_distinct_customers_count other
        = get_distinct_customers_count self).
Proof.
  unfold get_distinct_customers_count.
  pose proof (SalesAnalyzerProofs.nodup_length_le (map (@customer_id _ _) self)) as Hle.
  rewrite length_map in Hle.
  split; [lia|]. split; [|split; [|split]].
  - split.
    + intros H. destruct self as [|r self]; [reflexivity|]. exfalso.
      assert (Hin : In (customer_id r)
                       (nodup string_dec (map (@customer_id _ _) (r :: self)))).
      { apply nodup_In. simpl. auto. }
      destruct (nodup string_dec (map (@customer_id _ _) (r :: self)));
        [contradiction|simpl in H; lia].
    + intros ->. reflexivity.
  - rewrite <- SalesAnalyzerProofs.nodup_length_full, length_map. lia.
  - intros r. rewrite map_app. simpl.
    rewrite SalesAnalyzerProofs.nodup_snoc_length.
    destruct (in_dec string_dec (customer_id r) (map (@customer_id _ _) self));
      lia.
  - intros other H. f_equal. apply SalesAnalyzerProofs.nodup_same_elements.
    intros c. symmetry. apply H.
Qed.

End MoreProperties.
